(** * protoly: the job pipeline, the rule engine and the retrying adapters

    A shallow embedding of the core of the repository:
    - [src/core/entities/transformation_job.py]      (module [Job])
    - [src/core/use_cases/*.py]                      (module [UseCases])
    - [src/adapters/outbound/http_client/*.py]       (modules [Http],
                                                      [HttpClient])
    - [src/adapters/outbound/transformation/transformation_adapter.py]
      and [src/services/transformation/transformations/*.py]
                                                     (module [Engine])

    Python exceptions are modelled by an explicit [outcome] type, and
    the exceptions that [except Exception] does not catch by the
    [completion] type around it; mutable objects by an explicit store,
    and the clock and the network by values handed to the functions that
    read them. *)

From Stdlib Require Import ZArith Lia SpecFloat Ascii.
From stdpp Require Import base strings list gmap pretty.

Local Open Scope string_scope.
Local Open Scope list_scope.
Local Open Scope Z_scope.

(** ** Exceptions and outcomes *)

(** The exception classes the core raises or catches by name.
    [HTTPStatusError] carries [e.response.status_code].  Every class here
    derives from Python's [Exception]: an [except Exception] clause
    catches each of them.  What such a clause does not catch is a
    [base_exception], below. *)
Inductive exc_class :=
  | ValueError
  | TypeError
  | AttributeError
  | TransformationError
  | SourceFetchError
  | DeliveryError
  | HTTPStatusError (status_code : Z)
  | TimeoutException
  | OtherException (name : string).

(** An exception object: its class, [str(e)], and [e.__cause__] as set
    by [raise ... from e]. *)
#[warnings="-register-all"]
Inductive exn :=
  | Exn (cls : exc_class) (msg : string) (cause : option exn).

Definition exn_class (e : exn) : exc_class := let 'Exn c _ _ := e in c.
Definition exn_str (e : exn) : string := let 'Exn _ m _ := e in m.
Definition exn_cause (e : exn) : option exn := let 'Exn _ _ c := e in c.

(** What a call does, as far as [except Exception] can tell: it returns
    a value or it raises an [Exception]. *)
Inductive outcome (A : Type) :=
  | Returned (a : A)
  | Raised (e : exn).
Arguments Returned {A} a.
Arguments Raised {A} e.

(** The exceptions that derive from [BaseException] and not from
    [Exception]: [asyncio.CancelledError], raised inside a coroutine at
    the [await] where its task is cancelled, and the interpreter's own
    three.  No [except Exception] clause catches them. *)
Inductive base_exception :=
  | CancelledError
  | KeyboardInterrupt
  | SystemExit
  | GeneratorExit.

(** What a call into code of the caller's does (a port that is awaited,
    a callable of the registry): it ends with an [outcome], or a
    [base_exception] leaves it.  An [outcome] is read as the completion
    it is, so that [Returned a] and [Raised e] are completions too. *)
Inductive completion (A : Type) :=
  | Normal (o : outcome A)
  | Escaped (b : base_exception).
Arguments Normal {A} o.
Arguments Escaped {A} b.
Coercion Normal : outcome >-> completion.
Arguments pair {A B}%_type_scope & a b.

(** The call did not return. *)
Definition is_raised {A} (c : completion A) : bool :=
  match c with Normal (Returned _) => false | _ => true end.

(** [str(n)] for a Python [int]. *)
Definition str_of_int (z : Z) : string := pretty z.

(** ** Documents

    A nested document ([dict[str, Any]] and what it holds) as an immutable
    tree.  This is the view of a document where no object is shared or
    updated: the payloads the network adapters pass on, and the meaning
    of a stored document ([snapshot] below).  A Python [str] is a Rocq
    [string], one [ascii] per character; a [float] is an IEEE value. *)
#[warnings="-register-all"]
Inductive json :=
  | JNull
  | JBool (b : bool)
  | JInt (z : Z)
  | JFloat (f : spec_float)
  | JStr (s : string)
  | JList (elems : list json)
  | JObj (items : list (string * json)).

(** ** The object store

    Dicts and lists are objects with an identity: a value of the program
    is an immediate or a reference to an object of the store, so that two
    references to one dict see each other's updates. *)
Abbreviation loc := nat (only parsing).

Inductive val :=
  | VNone
  | VBool (b : bool)
  | VInt (z : Z)
  | VFloat (f : spec_float)
  | VStr (s : string)
  | VRef (l : loc).

(** A dict keeps its items in insertion order; its keys are strings. *)
Inductive obj :=
  | ODict (items : list (string * val))
  | OList (elems : list val).

(** The store: the object at location [l] is the [l]-th one allocated. *)
Abbreviation heap := (list obj).

Definition alloc (o : obj) (h : heap) : heap * loc := (h ++ [o], length h).

(** [d.get(k)] / [k in d] on the items of a dict. *)
Fixpoint dict_get (k : string) (items : list (string * val)) : option val :=
  match items with
  | [] => None
  | (k', v) :: rest => if decide (k = k') then Some v else dict_get k rest
  end.

(** [d[k] = v] on the items of a dict: an existing key keeps its place,
    a new key goes last. *)
Fixpoint dict_set (k : string) (v : val) (items : list (string * val))
  : list (string * val) :=
  match items with
  | [] => [(k, v)]
  | (k', v') :: rest =>
      if decide (k = k') then (k, v) :: rest else (k', v') :: dict_set k v rest
  end.

(** [bool(v)]: Python's truth value. *)
Definition is_zero_float (f : spec_float) : bool :=
  match f with S754_zero _ => true | _ => false end.

Definition truthy (h : heap) (v : val) : bool :=
  match v with
  | VNone => false
  | VBool b => b
  | VInt z => negb (z =? 0)
  | VFloat f => negb (is_zero_float f)
  | VStr s => negb (String.eqb s "")
  | VRef l =>
      match h !! l with
      | Some (ODict []) | Some (OList []) => false
      | _ => true
      end
  end.

(** [isinstance(v, dict)], giving the items when it holds. *)
Definition as_dict (h : heap) (v : val) : option (list (string * val)) :=
  match v with
  | VRef l => match h !! l with Some (ODict items) => Some items | _ => None end
  | _ => None
  end.

(** [type(v).__name__]. *)
Definition type_name (h : heap) (v : val) : string :=
  match v with
  | VNone => "NoneType"
  | VBool _ => "bool"
  | VInt _ => "int"
  | VFloat _ => "float"
  | VStr _ => "str"
  | VRef l => match h !! l with Some (OList _) => "list" | _ => "dict" end
  end.

(** The document a value stands for in a store, read to depth [fuel];
    [None] when the depth is exceeded or a reference dangles. *)
Fixpoint snapshot (fuel : nat) (h : heap) (v : val) : option json :=
  match v with
  | VNone => Some JNull
  | VBool b => Some (JBool b)
  | VInt z => Some (JInt z)
  | VFloat f => Some (JFloat f)
  | VStr s => Some (JStr s)
  | VRef l =>
      match fuel with
      | O => None
      | S fuel' =>
          match h !! l with
          | Some (ODict items) =>
              JObj <$> mapM (λ kv, pair kv.1 <$> snapshot fuel' h kv.2) items
          | Some (OList elems) => JList <$> mapM (snapshot fuel' h) elems
          | None => None
          end
      end
  end.

(** Building a document in the store, every dict and list a new object
    (what [json.loads] or the YAML loader does). *)
Fixpoint load (j : json) (h : heap) {struct j} : heap * val :=
  match j with
  | JNull => (h, VNone)
  | JBool b => (h, VBool b)
  | JInt z => (h, VInt z)
  | JFloat f => (h, VFloat f)
  | JStr s => (h, VStr s)
  | JList elems =>
      let fix go (js : list json) (h : heap) : heap * list val :=
        match js with
        | [] => (h, [])
        | j :: js' =>
            let '(h1, v) := load j h in
            let '(h2, vs) := go js' h1 in (h2, v :: vs)
        end in
      let '(h1, vs) := go elems h in
      let '(h2, l) := alloc (OList vs) h1 in (h2, VRef l)
  | JObj items =>
      let fix go (kjs : list (string * json)) (h : heap) (acc : list (string * val))
          : heap * list (string * val) :=
        match kjs with
        | [] => (h, acc)
        | (k, j) :: kjs' =>
            let '(h1, v) := load j h in go kjs' h1 (dict_set k v acc)
        end in
      let '(h1, kvs) := go items h [] in
      let '(h2, l) := alloc (ODict kvs) h1 in (h2, VRef l)
  end.

(** *** What a holder of references can see

    The values an object holds, and the objects that can be reached from
    a value by following references. *)
Definition children (o : obj) : list val :=
  match o with
  | ODict items => items.*2
  | OList elems => elems
  end.

Inductive reachable (h : heap) : val → loc → Prop :=
  | reachable_here (l : loc) : reachable h (VRef l) l
  | reachable_step (l : loc) (o : obj) (v : val) (l' : loc) :
      h !! l = Some o → v ∈ children o → reachable h v l' →
      reachable h (VRef l) l'.

(** A reference of a running program points to an allocated object:
    the store holds no dangling reference. *)
Definition val_closed (h : heap) (v : val) : bool :=
  match v with
  | VRef l => bool_decide (l < length h)%nat
  | _ => true
  end.

Definition heap_closed (h : heap) : bool :=
  forallb (λ o, forallb (val_closed h) (children o)) h.

(** The store [h'] is the store [h] up to the object at [l]. *)
Definition same_except (l : loc) (h h' : heap) : Prop :=
  length h' = length h ∧ ∀ l' : loc, l' ≠ l → h' !! l' = h !! l'.

(** ** The Python runtime

    What the sources take from the language and its library and what this
    development does not define: Unicode case mapping, the printing of
    floats and of containers, and the [datetime] parser and printer.
    Theorems hold for every runtime; examples run on [ascii_runtime]. *)
Class PyRuntime := {
  (** [s.upper()] and [s.lower()] *)
  str_upper : string → string;
  str_lower : string → string;
  (** [str(x)] for a float, and for the dict or list at a location *)
  float_str : spec_float → string;
  object_str : heap → loc → string;
  (** [datetime.strptime(s, fmt).replace(tzinfo=ZoneInfo("UTC"))], which
      raises when [s] does not match [fmt], and [d.strftime(fmt)] *)
  py_datetime : Type;
  strptime_utc : string → string → outcome py_datetime;
  strftime : py_datetime → string → outcome string;
}.

(** [str(v)]. *)
Definition py_str `{PyRuntime} (h : heap) (v : val) : string :=
  match v with
  | VNone => "None"
  | VBool true => "True"
  | VBool false => "False"
  | VInt z => str_of_int z
  | VFloat f => float_str f
  | VStr s => s
  | VRef l => object_str h l
  end.

(** ** The job entity ([transformation_job.py]) *)

Module Job.

Inductive JobStatus :=
  | PENDING | FETCHING | TRANSFORMING | DELIVERING | COMPLETED | FAILED.

#[global] Instance JobStatus_eq_dec : EqDecision JobStatus.
Proof. solve_decision. Defined.

(** [str(JobStatus.X)], as the f-strings of the guards print it. *)
Definition status_str (s : JobStatus) : string :=
  match s with
  | PENDING => "JobStatus.PENDING"
  | FETCHING => "JobStatus.FETCHING"
  | TRANSFORMING => "JobStatus.TRANSFORMING"
  | DELIVERING => "JobStatus.DELIVERING"
  | COMPLETED => "JobStatus.COMPLETED"
  | FAILED => "JobStatus.FAILED"
  end.

(** A [datetime] is a point on the clock. *)
Definition datetime := Z.

Record TransformationJob := mkJob {
  id : N;
  customer_id : string;
  config_name : string;
  status : JobStatus;
  created_at : datetime;
  completed_at : option datetime;
  error_message : option string;
}.

(** [TransformationJob(customer_id=c, config_name=n)]: the dataclass
    defaults, with the generated id and the clock reading made explicit. *)
Definition new_job (uuid : N) (c n : string) (now : datetime) : TransformationJob :=
  {| id := uuid; customer_id := c; config_name := n; status := PENDING;
     created_at := now; completed_at := None; error_message := None |}.

Definition set_status (s : JobStatus) (j : TransformationJob) : TransformationJob :=
  {| id := id j; customer_id := customer_id j; config_name := config_name j;
     status := s; created_at := created_at j;
     completed_at := completed_at j; error_message := error_message j |}.

(** The five mutators.  A method call leaves the object in some state
    and returns or raises: [(job after the call, outcome)]. *)
Definition mark_as_fetching (self : TransformationJob) : TransformationJob * outcome unit :=
  if decide (status self ≠ PENDING)
  then (self, Raised (Exn ValueError
                        ("Cannot fetch from status " +:+ status_str (status self)) None))
  else (set_status FETCHING self, Returned ()).

Definition mark_as_transforming (self : TransformationJob)
  : TransformationJob * outcome unit :=
  if decide (status self ≠ FETCHING)
  then (self, Raised (Exn ValueError
                        ("Cannot transform from status " +:+ status_str (status self)) None))
  else (set_status TRANSFORMING self, Returned ()).

Definition mark_as_delivering (self : TransformationJob)
  : TransformationJob * outcome unit :=
  if decide (status self ≠ TRANSFORMING)
  then (self, Raised (Exn ValueError
                        ("Cannot deliver from status " +:+ status_str (status self)) None))
  else (set_status DELIVERING self, Returned ()).

(** [now] is the value [datetime.now(tz=UTC)] returns inside the call. *)
Definition mark_as_completed (now : datetime) (self : TransformationJob)
  : TransformationJob * outcome unit :=
  ({| id := id self; customer_id := customer_id self; config_name := config_name self;
      status := COMPLETED; created_at := created_at self;
      completed_at := Some now; error_message := error_message self |},
   Returned ()).

Definition mark_as_failed (error_message : string) (now : datetime)
    (self : TransformationJob) : TransformationJob * outcome unit :=
  ({| id := id self; customer_id := customer_id self; config_name := config_name self;
      status := FAILED; created_at := created_at self;
      completed_at := Some now; error_message := Some error_message |},
   Returned ()).

(** A call of one of the five mutators, with the arguments and the
    clock reading it gets. *)
Inductive call :=
  | CallFetching
  | CallTransforming
  | CallDelivering
  | CallCompleted (now : datetime)
  | CallFailed (msg : string) (now : datetime).

Definition do_call (c : call) (self : TransformationJob)
  : TransformationJob * outcome unit :=
  match c with
  | CallFetching => mark_as_fetching self
  | CallTransforming => mark_as_transforming self
  | CallDelivering => mark_as_delivering self
  | CallCompleted now => mark_as_completed now self
  | CallFailed msg now => mark_as_failed msg now self
  end.

(** A caller that makes the calls one after the other on the same
    object, carrying on after a call that raised. *)
Fixpoint run (cs : list call) (job : TransformationJob) : TransformationJob :=
  match cs with
  | [] => job
  | c :: cs' => run cs' (do_call c job).1
  end.

(** The invariant of the data model, as the specification words it. *)
Definition spec_invariant (j : TransformationJob) : Prop :=
  (is_Some (completed_at j) ↔ status j = COMPLETED ∨ status j = FAILED) ∧
  (is_Some (error_message j) ↔ status j = FAILED).

(** What every reachable job does satisfy. *)
Definition job_invariant (j : TransformationJob) : Prop :=
  (is_Some (completed_at j) ↔ status j = COMPLETED ∨ status j = FAILED) ∧
  (status j = FAILED → is_Some (error_message j)) ∧
  (is_Some (error_message j) → status j = FAILED ∨ status j = COMPLETED).

(** The two request/response entities of the same file. *)
Record ApiRequest := mkApiRequest {
  url : string;
  method : string;
  headers : list (string * string);
  params : list (string * json);
  body : option json;
  timeout : Z;
}.

Record ApiResponse := mkApiResponse {
  status_code : Z;
  data : json;
  response_headers : list (string * string);
  response_time_ms : spec_float;
}.

End Job.

(** ** The use cases ([core/use_cases/*.py]) *)

Module UseCases.
Import Job.

(** A use case holds a port, an object with one method.  A port call
    runs in the world outside the job (network, engine state) and may
    change it; it never sees the job. *)
Section Ports.

Context {World : Type}.
(** the documents and rule lists handed through to the engine port *)
Context {Data Rules : Type}.

(** [SourcePort.fetch], [TransformationPort.transform],
    [DestinationPort.deliver] *)
Variable fetch : ApiRequest → World → World * completion ApiResponse.
Variable transform : Data → Rules → World → World * completion Data.
Variable deliver : ApiRequest → Data → World → World * completion unit.

(** [now] is what the clock shows when the use case marks the job. *)
Variable now : datetime.

(** What a use case leaves behind: the world, the job, and what the
    caller gets. *)
Definition execution (A : Type) : Type := World * TransformationJob * completion A.

(** An [except Exception as e] handler of a use case:
    [job.mark_as_failed(f"<prefix>{str(e)}")], then a bare [raise].  It
    runs for an [Exception] only: in each [execute] below a
    [base_exception] of the port leaves the method with the job as the
    stage's transition left it. *)
Definition record_and_reraise {A} (prefix : string) (e : exn)
    (job : TransformationJob) (w : World) : execution A :=
  match mark_as_failed (prefix +:+ exn_str e) now job with
  | (job, Returned _) => (w, job, Raised e)
  | (job, Raised e') => (w, job, Raised e')
  end.

(** [FetchSourceDataUseCase.execute] *)
Definition fetch_execute (job : TransformationJob) (request_config : ApiRequest)
    (w : World) : execution ApiResponse :=
  match mark_as_fetching job with
  | (job, Raised e) => (w, job, Raised e)
  | (job, Returned _) =>
      match fetch request_config w with
      | (w, Normal (Returned response)) => (w, job, Returned response)
      | (w, Normal (Raised e)) =>
          record_and_reraise "Failed to fetch source data: " e job w
      | (w, Escaped b) => (w, job, Escaped b)
      end
  end.

(** [TransformDataUseCase.execute] *)
Definition transform_execute (job : TransformationJob) (source_data : Data)
    (transformation_rules : Rules) (w : World) : execution Data :=
  match mark_as_transforming job with
  | (job, Raised e) => (w, job, Raised e)
  | (job, Returned _) =>
      match transform source_data transformation_rules w with
      | (w, Normal (Returned transformed_data)) =>
          (w, job, Returned transformed_data)
      | (w, Normal (Raised e)) =>
          record_and_reraise "Failed to transform data: " e job w
      | (w, Escaped b) => (w, job, Escaped b)
      end
  end.

(** [DeliverDataUseCase.execute] *)
Definition deliver_execute (job : TransformationJob) (transformed_data : Data)
    (destination_config : ApiRequest) (w : World) : execution unit :=
  match mark_as_delivering job with
  | (job, Raised e) => (w, job, Raised e)
  | (job, Returned _) =>
      match deliver destination_config transformed_data w with
      | (w, Normal (Returned _)) =>
          match mark_as_completed now job with
          | (job, Returned _) => (w, job, Returned ())
          | (job, Raised e) => record_and_reraise "Failed to deliver data: " e job w
          end
      | (w, Normal (Raised e)) =>
          record_and_reraise "Failed to deliver data: " e job w
      | (w, Escaped b) => (w, job, Escaped b)
      end
  end.

End Ports.

End UseCases.

(** ** The network adapters ([adapters/outbound/http_client/*.py]) *)

Module Http.
Import Job.

(** One call of the [httpx] client: the verb and the keyword arguments. *)
Record http_call := mkCall {
  call_verb : string;
  call_url : string;
  call_headers : list (string * string);
  call_params : list (string * json);
  call_timeout : Z;
  call_json : option json;
}.

(** An [httpx.Response], by what the adapters ask of it.
    [resp_status_error] is the message of the [HTTPStatusError] that
    [raise_for_status()] raises, if it raises; [resp_json] is [None] when
    [json()] raises. *)
Record http_response := mkResponse {
  resp_status_code : Z;
  resp_status_error : option string;
  resp_json : option json;
  resp_text : string;
  resp_headers : list (string * string);
}.

(** What the adapter does to the outside, in order. *)
Inductive event :=
  | EvRequest (attempt : nat) (c : http_call)
  | EvSleep (seconds : Z).

Definition sleeps (evs : list event) : list Z :=
  omap (λ ev, match ev with EvSleep s => Some s | EvRequest _ _ => None end) evs.

Definition requests (evs : list event) : list nat :=
  omap (λ ev, match ev with EvRequest i _ => Some i | EvSleep _ => None end) evs.

(** [range(n)] *)
Definition range (n : Z) : list nat := seq 0 (Z.to_nat n).

(** The waits [2 ** attempt] after the failed attempts [a .. a+k-1]. *)
Definition backoff (a k : nat) : list Z := (λ i, 2 ^ Z.of_nat i) <$> seq a k.

Section Adapters.

Context `{PyRuntime}.

(** The outside world: what the client call of attempt [i] comes back
    with, a response or an [Exception], and what
    [(time.time() - start_time) * 1000] measures around it.  The client
    itself ([_get_client], [close]) is this oracle: creating and pooling
    connections is not modelled.  The runs described are those of a task
    that is not cancelled while it awaits the client or sleeps. *)
Variable network : nat → http_call → outcome http_response.
Variable stopwatch_ms : nat → spec_float.

(** *** [HttpSourceAdapter] *)

Record HttpSourceAdapter := mkSource {
  source_max_retries : Z;
  source_default_timeout : Z;
}.

(** [_make_request] *)
Definition _make_request (attempt : nat) (request : ApiRequest)
  : list event * outcome http_response :=
  let method := str_upper (method request) in
  let request_kwargs (verb : string) (js : option json) :=
    {| call_verb := verb; call_url := url request;
       call_headers := headers request; call_params := params request;
       call_timeout := timeout request; call_json := js |} in
  let send c := ([EvRequest attempt c], network attempt c) in
  if decide (method = "GET") then send (request_kwargs "GET" None)
  else if decide (method = "POST") then send (request_kwargs "POST" (body request))
  else if decide (method = "PUT") then send (request_kwargs "PUT" (body request))
  else if decide (method = "DELETE") then send (request_kwargs "DELETE" None)
  else ([], Raised (Exn ValueError ("Unsupported HTTP method: " +:+ method) None)).

(** The body of the [try] of [fetch], for one attempt. *)
Definition fetch_attempt (attempt : nat) (request : ApiRequest)
  : list event * outcome ApiResponse :=
  let '(evs, r) := _make_request attempt request in
  match r with
  | Raised e => (evs, Raised e)
  | Returned response =>
      match resp_status_error response with
      | Some msg =>
          (evs, Raised (Exn (HTTPStatusError (resp_status_code response)) msg None))
      | None =>
          let data :=
            match resp_json response with
            | Some d => d
            | None => JObj [("raw_content", JStr (resp_text response))]
            end in
          (evs, Returned {| status_code := resp_status_code response;
                            data := data;
                            response_headers := resp_headers response;
                            response_time_ms := stopwatch_ms attempt |})
      end
  end.

(** The error the three [except] clauses of [fetch] raise on the last
    attempt, [from e]. *)
Definition fetch_error (e : exn) : exn :=
  match exn_class e with
  | HTTPStatusError code =>
      Exn SourceFetchError
        ("HTTP error " +:+ str_of_int code +:+ ": " +:+ exn_str e) (Some e)
  | TimeoutException =>
      Exn SourceFetchError ("Request timeout: " +:+ exn_str e) (Some e)
  | _ => Exn SourceFetchError ("Unexpected error: " +:+ exn_str e) (Some e)
  end.

(** The [for attempt in range(self._max_retries)] loop of [fetch];
    falling off its end returns [None]. *)
Fixpoint fetch_loop (max_retries : Z) (request : ApiRequest) (attempts : list nat)
  : list event * outcome (option ApiResponse) :=
  match attempts with
  | [] => ([], Returned None)
  | attempt :: rest =>
      match fetch_attempt attempt request with
      | (evs, Returned response) => (evs, Returned (Some response))
      | (evs, Raised e) =>
          if Z.of_nat attempt =? max_retries - 1
          then (evs, Raised (fetch_error e))
          else
            let '(evs', r) := fetch_loop max_retries request rest in
            (evs ++ EvSleep (2 ^ Z.of_nat attempt) :: evs', r)
      end
  end.

Definition fetch (self : HttpSourceAdapter) (request : ApiRequest)
  : list event * outcome (option ApiResponse) :=
  fetch_loop (source_max_retries self) request (range (source_max_retries self)).

(** *** [HttpDestinationAdapter] *)

Record HttpDestinationAdapter := mkDestination {
  destination_max_retries : Z;
  destination_default_timeout : Z;
}.

(** The body of the [try] of [deliver], for one attempt. *)
Definition deliver_attempt (attempt : nat) (destination : ApiRequest) (data : json)
  : list event * outcome unit :=
  let c := {| call_verb := "POST"; call_url := url destination;
              call_headers := headers destination;
              call_params := params destination;
              call_timeout := timeout destination; call_json := Some data |} in
  match network attempt c with
  | Raised e => ([EvRequest attempt c], Raised e)
  | Returned response =>
      match resp_status_error response with
      | Some msg =>
          ([EvRequest attempt c],
           Raised (Exn (HTTPStatusError (resp_status_code response)) msg None))
      | None => ([EvRequest attempt c], Returned ())
      end
  end.

Definition delivery_error (e : exn) : exn :=
  match exn_class e with
  | HTTPStatusError code =>
      Exn DeliveryError ("Failed to deliver data: HTTP " +:+ str_of_int code) (Some e)
  | TimeoutException =>
      Exn DeliveryError ("Delivery timeout: " +:+ exn_str e) (Some e)
  | _ => Exn DeliveryError ("Unexpected delivery error: " +:+ exn_str e) (Some e)
  end.

(** The loop of [deliver].  The method has no [return] value: [None]
    comes back both from the [return] after a delivery and from the end
    of the loop. *)
Fixpoint deliver_loop (max_retries : Z) (destination : ApiRequest) (data : json)
    (attempts : list nat) : list event * outcome unit :=
  match attempts with
  | [] => ([], Returned ())
  | attempt :: rest =>
      match deliver_attempt attempt destination data with
      | (evs, Returned _) => (evs, Returned ())
      | (evs, Raised e) =>
          if Z.of_nat attempt =? max_retries - 1
          then (evs, Raised (delivery_error e))
          else
            let '(evs', r) := deliver_loop max_retries destination data rest in
            (evs ++ EvSleep (2 ^ Z.of_nat attempt) :: evs', r)
      end
  end.

Definition deliver (self : HttpDestinationAdapter) (destination : ApiRequest)
    (data : json) : list event * outcome unit :=
  deliver_loop (destination_max_retries self) destination data
    (range (destination_max_retries self)).

End Adapters.

End Http.

(** ** The rule engine ([transformation_adapter.py] and the operations) *)

Module Engine.

(** A computation on the store: it returns or raises, or, where it calls
    a callable of the registry, a [base_exception] of that callable
    leaves it. *)
Abbreviation M A := (heap → heap * completion A).

(** Keyword arguments [**params]: the items of the params dict. *)
Abbreviation kwargs := (list (string * val)).

(** A registered callable, called as [f(value, **params)].  It may do
    anything to the store, and end in any way Python code can. *)
Abbreviation transformation := (val → kwargs → M val).

(** [s.split(sep)] for a one-character separator. *)
Fixpoint split (sep : ascii) (s : string) : list string :=
  match s with
  | EmptyString => [""]
  | String c s' =>
      if decide (c = sep) then "" :: split sep s'
      else match split sep s' with
           | [] => [String c ""]
           | w :: ws => String c w :: ws
           end
  end.

(** [sep.join(ss)] *)
Fixpoint join (sep : string) (ss : list string) : string :=
  match ss with
  | [] => ""
  | [s] => s
  | s :: ss' => s +:+ sep +:+ join sep ss'
  end.

Definition no_attribute (h : heap) (v : val) (attr : string) : exn :=
  Exn AttributeError
    ("'" +:+ type_name h v +:+ "' object has no attribute '" +:+ attr +:+ "'") None.

(** [d.get(key, dflt)] as Python runs it on any receiver and any key:
    only a dict has the method, and a dict or list is no key. *)
Definition method_get (h : heap) (d : val) (key : val) (dflt : val)
  : outcome val :=
  match as_dict h d with
  | None => Raised (no_attribute h d "get")
  | Some items =>
      match key with
      | VRef _ =>
          Raised (Exn TypeError ("unhashable type: '" +:+ type_name h key +:+ "'") None)
      | VStr k => Returned (default dflt (dict_get k items))
      | _ => Returned dflt
      end
  end.

(** [for x in v]: the elements iteration yields. *)
Definition iterate (h : heap) (v : val) : outcome (list val) :=
  match v with
  | VStr s => Returned ((λ c, VStr (String c "")) <$> String.list_ascii_of_string s)
  | VRef l =>
      match h !! l with
      | Some (OList elems) => Returned elems
      | Some (ODict items) => Returned ((λ kv, VStr kv.1) <$> items)
      | None => Returned []
      end
  | _ =>
      Raised (Exn TypeError ("'" +:+ type_name h v +:+ "' object is not iterable") None)
  end.

(** [target[key] = v] *)
Definition setitem (target : val) (key : string) (v : val) : M unit :=
  λ h,
    match target with
    | VRef l =>
        match h !! l with
        | Some (ODict items) => (<[l := ODict (dict_set key v items)]> h, Returned ())
        | _ =>
            (h, Raised (Exn TypeError
                          "list indices must be integers or slices, not str" None))
        end
    | _ =>
        (h, Raised (Exn TypeError
              ("'" +:+ type_name h target +:+ "' object does not support item assignment")
              None))
    end.

Section WithRuntime.

Context `{PyRuntime}.

(** *** The operations ([services/transformation/transformations]) *)

(** Every operation is [def transform(value, ..., **params)]: a params
    dict with a key ["value"] gives the first parameter twice. *)
Definition def_transform (body : heap → val → kwargs → outcome val)
  : transformation :=
  λ value params h,
    if decide (is_Some (dict_get "value" params))
    then (h, Raised (Exn TypeError
                       "transform() got multiple values for argument 'value'" None))
    else (h, body h value params).

(** The keyword [name], or the default of the signature. *)
Definition keyword (params : kwargs) (name : string) (dflt : val) : val :=
  default dflt (dict_get name params).

(** [direct_mapping.transform] *)
Definition direct_mapping : transformation :=
  def_transform (λ h value params, Returned value).

(** [default_value.transform] *)
Definition default_value : transformation :=
  def_transform (λ h value params,
    let default := keyword params "default" VNone in
    match value with
    | VNone | VStr "" => Returned default
    | _ => Returned value
    end).

(** [uppercase.transform] *)
Definition uppercase : transformation :=
  def_transform (λ h value params,
    match value with
    | VNone => Returned (VStr "")
    | _ => Returned (VStr (str_upper (py_str h value)))
    end).

(** Modelled from the spec: [lowercase.transform], whose module
    [transformations/lowercase.py] the engine imports and registers but
    which is not among the sources.  The specification gives it with
    uppercase: "uppercase/lowercase: stringify then case-fold; absent
    value yields empty string." *)
Definition lowercase : transformation :=
  def_transform (λ h value params,
    match value with
    | VNone => Returned (VStr "")
    | _ => Returned (VStr (str_lower (py_str h value)))
    end).

(** The list comprehension of [concatenate]:
    [[str(value.get(f, "")) for f in fields]] *)
Fixpoint concatenate_values (h : heap) (value : val) (fields : list val)
  : outcome (list string) :=
  match fields with
  | [] => Returned []
  | f :: fields' =>
      match method_get h value f (VStr "") with
      | Raised e => Raised e
      | Returned v =>
          match concatenate_values h value fields' with
          | Raised e => Raised e
          | Returned vs => Returned (py_str h v :: vs)
          end
      end
  end.

(** [concatenate.transform] *)
Definition concatenate : transformation :=
  def_transform (λ h value params,
    let fields := keyword params "fields" VNone in
    let separator := keyword params "separator" (VStr " ") in
    if truthy h fields && bool_decide (is_Some (as_dict h value)) then
      match iterate h fields with
      | Raised e => Raised e
      | Returned fs =>
          match concatenate_values h value fs with
          | Raised e => Raised e
          | Returned values =>
              match separator with
              | VStr sep => Returned (VStr (join sep values))
              | _ => Raised (no_attribute h separator "join")
              end
          end
      end
    else Returned (VStr (py_str h value))).

(** [format_date.transform] *)
Definition format_date : transformation :=
  def_transform (λ h value params,
    let input_format := keyword params "input_format" (VStr "%Y-%m-%d") in
    let output_format := keyword params "output_format" (VStr "%d/%m/%Y") in
    if negb (truthy h value) then Returned (VStr "")
    else
      match input_format with
      | VStr fmt_in =>
          match strptime_utc (py_str h value) fmt_in with
          | Raised e => Raised e
          | Returned date_obj =>
              match output_format with
              | VStr fmt_out =>
                  match strftime date_obj fmt_out with
                  | Raised e => Raised e
                  | Returned s => Returned (VStr s)
                  end
              | _ =>
                  Raised (Exn TypeError
                    ("strftime() argument 1 must be str, not "
                       +:+ type_name h output_format) None)
              end
          end
      | _ =>
          Raised (Exn TypeError
            ("strptime() argument 2 must be str, not " +:+ type_name h input_format)
            None)
      end).

(** *** The engine *)

Record TransformationEngine := mkEngine {
  _transformation_registry : gmap string transformation;
}.

(** [_register_builtin_transformations], on the empty registry of
    [__init__] *)
Definition builtin_transformations : gmap string transformation :=
  <["direct" := direct_mapping]>
  (<["format_date" := format_date]>
  (<["concatenate" := concatenate]>
  (<["uppercase" := uppercase]>
  (<["lowercase" := lowercase]>
  (<["default_value" := default_value]> ∅))))).

(** [TransformationEngine()] *)
Definition new_engine : TransformationEngine :=
  {| _transformation_registry := builtin_transformations |}.

Definition register_transformation (self : TransformationEngine) (name : string)
    (func : transformation) : TransformationEngine :=
  {| _transformation_registry := <[name := func]> (_transformation_registry self) |}.

(** A rule, by what [rule.get] finds under its four keys.  [None] is an
    absent key; a value that is present has the type the configuration
    schema gives it: a string, and for the params a mapping, given here
    by its items. *)
Record rule := mkRule {
  rule_target_field : option string;
  rule_source_field : option string;
  rule_transform : option string;
  rule_params : option kwargs;
}.

(** The loop of [_extract_value], with its early [return None]. *)
Fixpoint extract_keys (h : heap) (keys : list string) (value : val)
  : outcome val :=
  match keys with
  | [] => Returned value
  | key :: keys' =>
      if bool_decide (is_Some (as_dict h value)) then
        match method_get h value (VStr key) VNone with
        | Raised e => Raised e
        | Returned value => extract_keys h keys' value
        end
      else Returned VNone
  end.

(** [_extract_value] *)
Definition _extract_value (h : heap) (data : val) (field_path : option string)
  : outcome val :=
  match field_path with
  | None | Some "" => Returned data
  | Some field_path => extract_keys h (split "." field_path) data
  end.

(** The inner [try] of the loop body of [transform]. *)
Definition apply_transformation (transform_func : transformation)
    (source_data : val) (source_field : option string) (transform_params : kwargs)
    (transformed_data : val) (target_field : string) : M unit :=
  λ h,
    match _extract_value h source_data source_field with
    | Raised e => (h, Raised e)
    | Returned value =>
        match transform_func value transform_params h with
        | (h, Escaped b) => (h, Escaped b)
        | (h, Normal (Raised e)) => (h, Raised e)
        | (h, Normal (Returned transformed_value)) =>
            setitem transformed_data target_field transformed_value h
        end
    end.

(** The loop body of [transform], for one rule.  Its handler is
    [except Exception as e]: it wraps an [Exception] and lets a
    [base_exception] pass. *)
Definition apply_rule (self : TransformationEngine) (source_data : val)
    (transformed_data : val) (r : rule) : M unit :=
  λ h,
    let target_field := rule_target_field r in
    let source_field := rule_source_field r in
    let transform_type := default "direct" (rule_transform r) in
    let transform_params := default [] (rule_params r) in
    match target_field with
    | None | Some "" =>
        (h, Raised (Exn TransformationError "Missing target_field in rule" None))
    | Some target_field =>
        match _transformation_registry self !! transform_type with
        | None =>
            (h, Raised (Exn TransformationError
                          ("Unknown transformation type: " +:+ transform_type) None))
        | Some transform_func =>
            match apply_transformation transform_func source_data source_field
                    transform_params transformed_data target_field h with
            | (h, Escaped b) => (h, Escaped b)
            | (h, Normal (Raised e)) =>
                (h, Raised (Exn TransformationError
                      ("Failed to transform field " +:+ target_field +:+ ": "
                         +:+ exn_str e) (Some e)))
            | (h, Normal (Returned _)) => (h, Returned ())
            end
        end
    end.

(** [for rule in rules]: the first rule that raises ends the loop. *)
Fixpoint apply_rules (self : TransformationEngine) (source_data : val)
    (transformed_data : val) (rules : list rule) : M unit :=
  λ h,
    match rules with
    | [] => (h, Returned ())
    | r :: rules' =>
        match apply_rule self source_data transformed_data r h with
        | (h, Escaped b) => (h, Escaped b)
        | (h, Normal (Raised e)) => (h, Raised e)
        | (h, Normal (Returned _)) =>
            apply_rules self source_data transformed_data rules' h
        end
    end.

(** [TransformationEngine.transform].  The handler around the loop is
    [except Exception as e] as well. *)
Definition transform (self : TransformationEngine) (source_data : val)
    (rules : list rule) : M val :=
  λ h,
    let '(h, l) := alloc (ODict []) h in
    let transformed_data := VRef l in
    match apply_rules self source_data transformed_data rules h with
    | (h, Normal (Returned _)) => (h, Returned transformed_data)
    | (h, Normal (Raised e)) =>
        (h, Raised (Exn TransformationError
                      ("Transformation failed: " +:+ exn_str e) (Some e)))
    | (h, Escaped b) => (h, Escaped b)
    end.

(** The rules name only operations that are the built-in ones in
    this engine. *)
Definition uses_builtins (self : TransformationEngine) (rules : list rule) : Prop :=
  ∀ r, r ∈ rules →
    _transformation_registry self !! default "direct" (rule_transform r)
    = builtin_transformations !! default "direct" (rule_transform r).

(** What the caller of [transform] holds when the call is over, apart
    from what the call hands back: the source document and the rules
    with the values of their params. *)
Definition caller_roots (source_data : val) (rules : list rule) : list val :=
  source_data :: (rules ≫= λ r, (default [] (rule_params r)).*2).

(** The reading of "the caller can observe target fields written by
    the rules before the failing one": the call raises, and some dict
    the caller can reach from what it holds has a field it did not have
    before the call. *)
Definition observes_partial_write (self : TransformationEngine)
    (source_data : val) (rules : list rule) (h : heap) : Prop :=
  let result := transform self source_data rules h in
  is_raised result.2 = true ∧
  ∃ root l items k v,
    root ∈ caller_roots source_data rules ∧
    reachable result.1 root l ∧
    result.1 !! l = Some (ODict items) ∧
    dict_get k items = Some v ∧
    ∀ items0, h !! l = Some (ODict items0) → dict_get k items0 ≠ Some v.

End WithRuntime.

End Engine.

(** ** A runtime and sample data for the examples *)

Module Examples.
Import Job Http Engine.

Definition ascii_upper (c : ascii) : ascii :=
  let n := nat_of_ascii c in
  if ((97 <=? n) && (n <=? 122))%nat then ascii_of_nat (n - 32) else c.

Definition ascii_lower (c : ascii) : ascii :=
  let n := nat_of_ascii c in
  if ((65 <=? n) && (n <=? 90))%nat then ascii_of_nat (n + 32) else c.

Fixpoint map_string (f : ascii → ascii) (s : string) : string :=
  match s with
  | EmptyString => EmptyString
  | String c s' => String (f c) (map_string f s')
  end.

(** A runtime for strings of ASCII characters.  Its printers of floats
    and containers and its date functions are placeholders: no example
    below reaches them. *)
#[local] Instance ascii_runtime : PyRuntime := {|
  str_upper := map_string ascii_upper;
  str_lower := map_string ascii_lower;
  float_str := λ _, "nan";
  object_str := λ _ _, "{...}";
  py_datetime := unit;
  strptime_utc := λ s fmt,
    Raised (Exn ValueError
      ("time data '" +:+ s +:+ "' does not match format '" +:+ fmt +:+ "'") None);
  strftime := λ _ fmt, Returned fmt;
|}.

(** The source document [{"x": 5}] in an empty store. *)
Definition x5 : heap * val := load (JObj [("x", JInt 5)]) [].

(** The rule [{target_field: "a.b", source_field: "x", transform: "direct"}]. *)
Definition rule_ab : rule :=
  {| rule_target_field := Some "a.b"; rule_source_field := Some "x";
     rule_transform := Some "direct"; rule_params := None |}.

(** A rule that names an operation no engine has. *)
Definition rule_unknown : rule :=
  {| rule_target_field := Some "c"; rule_source_field := Some "x";
     rule_transform := Some "reverse"; rule_params := None |}.

(** The source document [{"a": 5}] in an empty store. *)
Definition a5 : heap * val := load (JObj [("a", JInt 5)]) [].

(** The value [{"first": "John", "last": "Doe"}] and, in the same store,
    the field lists [["first", "last"]] and [["first", "missing"]]. *)
Definition john : heap * val :=
  load (JObj [("first", JStr "John"); ("last", JStr "Doe")]) [].
Definition first_last : heap * val :=
  load (JList [JStr "first"; JStr "last"]) john.1.
Definition first_missing : heap * val :=
  load (JList [JStr "first"; JStr "missing"]) first_last.1.

(** A network that times out twice and then answers 200 with a JSON
    body, and one that is down. *)
Definition ok_response : http_response :=
  {| resp_status_code := 200; resp_status_error := None;
     resp_json := Some (JObj [("users", JList [])]); resp_text := "";
     resp_headers := [("content-type", "application/json")] |}.

Definition flaky_network (attempt : nat) (c : http_call) : outcome http_response :=
  if (attempt <? 2)%nat then Raised (Exn TimeoutException "timed out" None)
  else Returned ok_response.

Definition dead_network (attempt : nat) (c : http_call) : outcome http_response :=
  Raised (Exn TimeoutException "timed out" None).

Definition stopwatch (attempt : nat) : spec_float := S754_zero false.

Definition get_users : ApiRequest :=
  {| url := "https://source.example/users"; method := "get"; headers := [];
     params := []; body := None; timeout := 30 |}.

Definition post_customers : ApiRequest :=
  {| url := "https://destination.example/customers"; method := "POST"; headers := [];
     params := []; body := None; timeout := 60 |}.

(** Ports that raise, and a destination port that accepts, in a world
    with nothing in it. *)
Definition boom : exn := Exn (OtherException "Exception") "Connection timeout" None.

Definition failing_fetch (r : ApiRequest) (w : unit) : unit * completion ApiResponse :=
  (w, Raised boom).
Definition failing_transform (d : json) (rules : list rule) (w : unit)
  : unit * completion json := (w, Raised boom).
Definition failing_deliver (r : ApiRequest) (d : json) (w : unit) : unit * completion unit :=
  (w, Raised boom).
Definition accepting_deliver (r : ApiRequest) (d : json) (w : unit)
  : unit * completion unit := (w, Returned ()).

(** Ports awaited by a task that is cancelled meanwhile: the [await]
    raises [asyncio.CancelledError]. *)
Definition cancelled_fetch (r : ApiRequest) (w : unit)
  : unit * completion ApiResponse := (w, Escaped CancelledError).
Definition cancelled_transform (d : json) (rules : list rule) (w : unit)
  : unit * completion json := (w, Escaped CancelledError).
Definition cancelled_deliver (r : ApiRequest) (d : json) (w : unit)
  : unit * completion unit := (w, Escaped CancelledError).

Definition job_in (s : JobStatus) : TransformationJob :=
  set_status s (new_job 7 "acme" "daily" 0).

End Examples.

(** ** The client an adapter holds ([__init__], [_get_client], [close]) *)

Module HttpClient.

(** An [httpx.AsyncClient], by the settings [_get_client] gives it and
    whether [aclose()] has been called on it. *)
Record client := mkClient {
  max_connections : Z;
  max_keepalive_connections : Z;
  client_timeout : spec_float;
  follow_redirects : bool;
  is_closed : bool;
}.

(** The clients that exist, in the order they were made: a client is
    known by its place in this list. *)
Abbreviation clients := (list client).

(** The attributes of an adapter object that [_get_client] and [close]
    use; the two adapters have the same ones and the same two methods. *)
Record adapter := mkAdapter {
  _client : option nat;
  _default_timeout : spec_float;
  _owns_client : bool;
}.

(** [__init__(client, max_retries, timeout)], without [max_retries] *)
Definition init (client : option nat) (timeout : spec_float) : adapter :=
  {| _client := client; _default_timeout := timeout;
     _owns_client := bool_decide (client = None) |}.

Definition set_client (c : option nat) (self : adapter) : adapter :=
  {| _client := c; _default_timeout := _default_timeout self;
     _owns_client := _owns_client self |}.

(** [_get_client]: the adapter and the clients after the call, and the
    client returned. *)
Definition _get_client (self : adapter) (w : clients) : adapter * clients * nat :=
  match _client self with
  | None =>
      let c := {| max_connections := 100; max_keepalive_connections := 20;
                  client_timeout := _default_timeout self;
                  follow_redirects := true; is_closed := false |} in
      (set_client (Some (length w)) self, w ++ [c], length w)
  | Some c => (self, w, c)
  end.

(** [client.aclose()] *)
Definition aclose (c : client) : client :=
  {| max_connections := max_connections c;
     max_keepalive_connections := max_keepalive_connections c;
     client_timeout := client_timeout c;
     follow_redirects := follow_redirects c; is_closed := true |}.

(** [close] *)
Definition close (self : adapter) (w : clients) : adapter * clients :=
  match _client self with
  | Some c =>
      if _owns_client self then (set_client None self, alter aclose c w)
      else (self, w)
  | None => (self, w)
  end.

(** A use of the adapter: a call that needs the client ([fetch] and
    [deliver] begin with [_get_client]), or [close]. *)
Inductive use :=
  | UseClient
  | UseClose.

Definition do_use (u : use) (self : adapter) (w : clients) : adapter * clients :=
  match u with
  | UseClient => (_get_client self w).1
  | UseClose => close self w
  end.

Fixpoint uses (us : list use) (self : adapter) (w : clients) : adapter * clients :=
  match us with
  | [] => (self, w)
  | u :: us' => let '(self, w) := do_use u self w in uses us' self w
  end.

(** The state of an adapter that makes its own clients, seen from the
    clients [w0] that existed before it: it has made [made], all with the
    settings of [_get_client]; it holds the last of them, open, or none;
    the others are closed. *)
Definition owner_state (timeout : spec_float) (w0 : clients) (self : adapter)
    (w : clients) : Prop :=
  _owns_client self = true ∧ _default_timeout self = timeout ∧
  ∃ made,
    w = w0 ++ made ∧
    Forall (λ cl, max_connections cl = 100 ∧ max_keepalive_connections cl = 20 ∧
                  client_timeout cl = timeout ∧ follow_redirects cl = true) made ∧
    match _client self with
    | None => Forall (λ cl, is_closed cl = true) made
    | Some c =>
        ∃ older cl, made = older ++ [cl] ∧ c = (length w0 + length older)%nat ∧
                    is_closed cl = false ∧ Forall (λ cl, is_closed cl = true) older
    end.

End HttpClient.

(** ** Notions the further properties are stated with *)

Module Notions.
Import Job Http Engine.

(** How far along the pipeline a status is; the two terminal statuses
    are its end. *)
Definition rank (s : JobStatus) : nat :=
  match s with
  | PENDING => 0
  | FETCHING => 1
  | TRANSFORMING => 2
  | DELIVERING => 3
  | COMPLETED | FAILED => 4
  end.

(** The client calls among the events of an adapter. *)
Definition sent (evs : list event) : list http_call :=
  omap (λ ev, match ev with EvRequest _ c => Some c | EvSleep _ => None end) evs.

(** The seconds slept in all. *)
Definition total_sleep (evs : list event) : Z := foldr Z.add 0 (sleeps evs).

(** [path_to h d keys v]: taking the keys one after the other, each in a
    dict that has it, leads from [d] to [v]. *)
Inductive path_to (h : heap) : val → list string → val → Prop :=
  | path_here (v : val) : path_to h v [] v
  | path_step (d : val) (items : list (string * val)) (k : string) (v : val)
      (keys : list string) (w : val) :
      as_dict h d = Some items → dict_get k items = Some v →
      path_to h v keys w → path_to h d (k :: keys) w.

(** The rules that name one of the operations that take any value
    (identity, uppercase, default-value), have a target, and pass no
    param called ["value"]. *)
Definition plain_rule (r : rule) : bool :=
  match rule_target_field r with
  | None | Some "" => false
  | Some _ =>
      bool_decide (default "direct" (rule_transform r)
                   ∈ ["direct"; "uppercase"; "default_value"])
      && bool_decide (dict_get "value" (default [] (rule_params r)) = None)
  end.

End Notions.

(** ** More sample data *)

Module MoreExamples.
Import Job Http Engine Examples.

(** Ports that answer. *)
Definition users_response : ApiResponse :=
  {| status_code := 200; data := JObj [("users", JList [])];
     response_headers := []; response_time_ms := S754_zero false |}.

Definition answering_fetch (r : ApiRequest) (w : unit) : unit * completion ApiResponse :=
  (w, Returned users_response).
Definition answering_transform (d : json) (rules : list rule) (w : unit)
  : unit * completion json := (w, Returned (JObj [("customers", JList [])])).

(** A request with a method the source adapter does not know. *)
Definition patch_users : ApiRequest :=
  {| url := "https://source.example/users"; method := "patch"; headers := [];
     params := []; body := None; timeout := 30 |}.

(** A network that answers 503 once and 200 from then on. *)
Definition busy_response : http_response :=
  {| resp_status_code := 503; resp_status_error := Some "Server error";
     resp_json := None; resp_text := "busy"; resp_headers := [] |}.

Definition busy_once (attempt : nat) (c : http_call) : outcome http_response :=
  if (attempt <? 1)%nat then Returned busy_response else Returned ok_response.

(** The document [{"user": {"name": "ann", "tags": None}}] in an empty
    store; the inner dict is object 0, the document object 1. *)
Definition ann : heap * val :=
  load (JObj [("user", JObj [("name", JStr "ann"); ("tags", JNull)])]) [].

(** Rules on it. *)
Definition rule_name : rule :=
  {| rule_target_field := Some "name"; rule_source_field := Some "user.name";
     rule_transform := Some "uppercase"; rule_params := None |}.
Definition rule_name_again : rule :=
  {| rule_target_field := Some "name"; rule_source_field := Some "user.name";
     rule_transform := None; rule_params := None |}.
Definition rule_tags : rule :=
  {| rule_target_field := Some "tags"; rule_source_field := Some "user.tags";
     rule_transform := Some "default_value";
     rule_params := Some [("default", VStr "none")] |}.
Definition rule_user : rule :=
  {| rule_target_field := Some "customer"; rule_source_field := Some "user";
     rule_transform := None; rule_params := None |}.
Definition rule_date : rule :=
  {| rule_target_field := Some "since"; rule_source_field := Some "user.name";
     rule_transform := Some "format_date"; rule_params := None |}.

(** An operation of the caller's: it answers "redacted" to everything. *)
Definition redact (value : val) (params : list (string * val)) (h : heap)
  : heap * completion val := (h, Returned (VStr "redacted")).

(** Another one: it calls [sys.exit()]; and a rule that names it. *)
Definition quit (value : val) (params : list (string * val)) (h : heap)
  : heap * completion val := (h, Escaped SystemExit).
Definition rule_quit : rule :=
  {| rule_target_field := Some "tags"; rule_source_field := Some "user.tags";
     rule_transform := Some "quit"; rule_params := None |}.

End MoreExamples.

(** * Properties *)

(** ** The job state machine *)

Section JobFacts.
Import Job.

Lemma do_call_invariant (c : call) (j : TransformationJob) :
  job_invariant j → job_invariant (do_call c j).1.
Proof.
  destruct j as [i cu cf st cr co em].
  unfold job_invariant; cbn. intros (Hc & Hf & He).
  destruct c, st; cbn; (split; [| split]).
  all: try (intros Hm; destruct (He Hm); done).
  all: try done.
  all: try (rewrite Hc; split; intros [? | ?]; done).
  all: try (split; [by right | done]).
  all: try (split; [by left | done]).
  all: auto.
Qed.

Lemma run_invariant (cs : list call) (j : TransformationJob) :
  job_invariant j → job_invariant (run cs j).
Proof.
  revert j. induction cs as [| c cs IH]; intros j Hj; cbn [run]; [done |].
  by apply IH, do_call_invariant.
Qed.

(** C3, as stated, fails: a job that is marked failed and then marked
    completed is COMPLETED and still carries its error message. *)
Lemma completed_job_keeps_error_message :
  let job := run [CallFailed "boom" 1; CallCompleted 2] (new_job 7 "acme" "daily" 0) in
  status job = COMPLETED ∧ error_message job = Some "boom" ∧ ¬ spec_invariant job.
Proof.
  cbn. split; [done | split; [done |]].
  intros [_ [Hm _]]. cbn in Hm. by specialize (Hm (mk_is_Some _ _ eq_refl)).
Qed.

(** C3, amended: every job reachable from a freshly created job by any
    sequence of the five mark_as_* calls (carrying on after calls that
    raise) has completed_at set if and only if its status is COMPLETED or
    FAILED, has error_message set whenever its status is FAILED, and has
    error_message set only when its status is FAILED or COMPLETED. *)
Theorem reachable_job_invariant (uuid : N) (c n : string) (t : datetime)
    (cs : list call) :
  let job := run cs (new_job uuid c n t) in
  (is_Some (completed_at job) ↔ status job = COMPLETED ∨ status job = FAILED) ∧
  (status job = FAILED → is_Some (error_message job)) ∧
  (is_Some (error_message job) → status job = FAILED ∨ status job = COMPLETED).
Proof.
  apply (run_invariant cs). unfold job_invariant, new_job; cbn.
  split; [| split]; [| done |].
  - split; [intros [? ?]; done | intros [? | ?]; done].
  - intros [? ?]; done.
Qed.

(** C4: mark_as_fetching succeeds exactly from PENDING,
    mark_as_transforming exactly from FETCHING and mark_as_delivering
    exactly from TRANSFORMING, changing the status only; from any other
    status the call raises the invalid-transition error (a ValueError)
    and leaves the job, status and all other fields, as it was. *)
Theorem guarded_transitions (j : TransformationJob) :
  (status j = PENDING ∧ mark_as_fetching j = (set_status FETCHING j, Returned ())
   ∨ status j ≠ PENDING ∧
     ∃ msg, mark_as_fetching j = (j, Raised (Exn ValueError msg None))) ∧
  (status j = FETCHING ∧ mark_as_transforming j = (set_status TRANSFORMING j, Returned ())
   ∨ status j ≠ FETCHING ∧
     ∃ msg, mark_as_transforming j = (j, Raised (Exn ValueError msg None))) ∧
  (status j = TRANSFORMING ∧ mark_as_delivering j = (set_status DELIVERING j, Returned ())
   ∨ status j ≠ TRANSFORMING ∧
     ∃ msg, mark_as_delivering j = (j, Raised (Exn ValueError msg None))).
Proof.
  destruct j as [i cu cf st cr co em].
  unfold mark_as_fetching, mark_as_transforming, mark_as_delivering.
  destruct st; cbn; (split; [| split]);
    solve [ left; done | right; split; [done | by eexists] ].
Qed.

End JobFacts.

(** ** The use cases *)

Section UseCaseFacts.
Import Job UseCases.

Context {World Data Rules : Type}.
Variable fetch : ApiRequest → World → World * completion ApiResponse.
Variable transform : Data → Rules → World → World * completion Data.
Variable deliver : ApiRequest → Data → World → World * completion unit.

Lemma record_and_reraise_eq {A} (now : datetime) (prefix : string) (e : exn)
    (job : TransformationJob) (w : World) :
  record_and_reraise (A := A) now prefix e job w
  = (w, (mark_as_failed (prefix +:+ exn_str e) now job).1, Raised e).
Proof. reflexivity. Qed.

(** C5, amended: when the port a use case delegates to raises an
    exception that derives from [Exception], the use case calls
    mark_as_failed on the job (as the transition left it) with the stage
    prefix followed by the text of the exception, and raises that same
    exception; when the destination port returns, the deliver use case
    calls mark_as_completed on the job; and an exception of the port that
    does not derive from [Exception] leaves the use case as it is, with
    the job in the status of the stage and not marked. *)
Theorem use_cases_record_and_reraise (now : datetime) (job : TransformationJob)
    (w w' : World) (e : exn) (b : base_exception) :
  (∀ request_config,
     status job = PENDING → fetch request_config w = (w', Raised e) →
     fetch_execute fetch now job request_config w
     = (w', (mark_as_failed ("Failed to fetch source data: " +:+ exn_str e) now
               (set_status FETCHING job)).1, Raised e)) ∧
  (∀ source_data rules,
     status job = FETCHING → transform source_data rules w = (w', Raised e) →
     transform_execute transform now job source_data rules w
     = (w', (mark_as_failed ("Failed to transform data: " +:+ exn_str e) now
               (set_status TRANSFORMING job)).1, Raised e)) ∧
  (∀ transformed_data destination_config,
     status job = TRANSFORMING →
     deliver destination_config transformed_data w = (w', Raised e) →
     deliver_execute deliver now job transformed_data destination_config w
     = (w', (mark_as_failed ("Failed to deliver data: " +:+ exn_str e) now
               (set_status DELIVERING job)).1, Raised e)) ∧
  (∀ transformed_data destination_config u,
     status job = TRANSFORMING →
     deliver destination_config transformed_data w = (w', Returned u) →
     deliver_execute deliver now job transformed_data destination_config w
     = (w', (mark_as_completed now (set_status DELIVERING job)).1, Returned ())) ∧
  (∀ request_config,
     status job = PENDING → fetch request_config w = (w', Escaped b) →
     fetch_execute fetch now job request_config w
     = (w', set_status FETCHING job, Escaped b)) ∧
  (∀ source_data rules,
     status job = FETCHING → transform source_data rules w = (w', Escaped b) →
     transform_execute transform now job source_data rules w
     = (w', set_status TRANSFORMING job, Escaped b)) ∧
  (∀ transformed_data destination_config,
     status job = TRANSFORMING →
     deliver destination_config transformed_data w = (w', Escaped b) →
     deliver_execute deliver now job transformed_data destination_config w
     = (w', set_status DELIVERING job, Escaped b)).
Proof.
  repeat split.
  - intros request_config Hstatus Hport. unfold fetch_execute, mark_as_fetching.
    case_decide; [done |]. by rewrite Hport.
  - intros source_data rules Hstatus Hport.
    unfold transform_execute, mark_as_transforming.
    case_decide; [done |]. by rewrite Hport.
  - intros transformed_data destination_config Hstatus Hport.
    unfold deliver_execute, mark_as_delivering.
    case_decide; [done |]. by rewrite Hport.
  - intros transformed_data destination_config u Hstatus Hport.
    unfold deliver_execute, mark_as_delivering.
    case_decide; [done |]. by rewrite Hport.
  - intros request_config Hstatus Hport. unfold fetch_execute, mark_as_fetching.
    case_decide; [done |]. by rewrite Hport.
  - intros source_data rules Hstatus Hport.
    unfold transform_execute, mark_as_transforming.
    case_decide; [done |]. by rewrite Hport.
  - intros transformed_data destination_config Hstatus Hport.
    unfold deliver_execute, mark_as_delivering.
    case_decide; [done |]. by rewrite Hport.
Qed.

End UseCaseFacts.

(** ** The retrying adapters *)

Section HttpFacts.
Import Job Http.

Context `{PyRuntime}.
Variable network : nat → http_call → outcome http_response.
Variable stopwatch_ms : nat → spec_float.

Local Abbreviation fetch_attempt := (Http.fetch_attempt network stopwatch_ms).
Local Abbreviation fetch_loop := (Http.fetch_loop network stopwatch_ms).
Local Abbreviation fetch := (Http.fetch network stopwatch_ms).
Local Abbreviation deliver_attempt := (Http.deliver_attempt network).
Local Abbreviation deliver_loop := (Http.deliver_loop network).
Local Abbreviation deliver := (Http.deliver network).

Lemma sleeps_app (evs evs' : list event) :
  sleeps (evs ++ evs') = sleeps evs ++ sleeps evs'.
Proof. unfold sleeps. apply omap_app. Qed.

Lemma sleeps_cons_sleep (seconds : Z) (evs : list event) :
  sleeps (EvSleep seconds :: evs) = seconds :: sleeps evs.
Proof. reflexivity. Qed.

Lemma make_request_events (attempt : nat) (request : ApiRequest) :
  sleeps (_make_request network attempt request).1 = [].
Proof. unfold _make_request. repeat case_decide; reflexivity. Qed.

Lemma fetch_attempt_sleeps (attempt : nat) (request : ApiRequest) :
  sleeps (fetch_attempt attempt request).1 = [].
Proof.
  unfold Http.fetch_attempt.
  pose proof (make_request_events attempt request) as Hev.
  destruct (_make_request network attempt request) as [evs [response | e]]; [| done].
  by destruct (resp_status_error response).
Qed.

Lemma deliver_attempt_sleeps (attempt : nat) (destination : ApiRequest) (data : json) :
  sleeps (deliver_attempt attempt destination data).1 = [].
Proof.
  unfold Http.deliver_attempt.
  destruct (network _ _) as [response | e]; [| done].
  by destruct (resp_status_error response).
Qed.

Lemma deliver_attempt_requests (attempt : nat) (destination : ApiRequest) (data : json) :
  requests (deliver_attempt attempt destination data).1 = [attempt].
Proof.
  unfold Http.deliver_attempt.
  destruct (network _ _) as [response | e]; [| done].
  by destruct (resp_status_error response).
Qed.

Lemma fetch_loop_cons (max_retries : Z) (request : ApiRequest) (attempt : nat)
    (rest : list nat) :
  fetch_loop max_retries request (attempt :: rest)
  = match fetch_attempt attempt request with
    | (evs, Returned response) => (evs, Returned (Some response))
    | (evs, Raised e) =>
        if Z.of_nat attempt =? max_retries - 1
        then (evs, Raised (fetch_error e))
        else (evs ++ EvSleep (2 ^ Z.of_nat attempt)
                  :: (fetch_loop max_retries request rest).1,
              (fetch_loop max_retries request rest).2)
    end.
Proof.
  cbn [Http.fetch_loop].
  destruct (fetch_attempt attempt request) as [evs [response | e]]; [done |].
  by destruct (fetch_loop max_retries request rest).
Qed.

Lemma deliver_loop_cons (max_retries : Z) (destination : ApiRequest) (data : json)
    (attempt : nat) (rest : list nat) :
  deliver_loop max_retries destination data (attempt :: rest)
  = match deliver_attempt attempt destination data with
    | (evs, Returned _) => (evs, Returned ())
    | (evs, Raised e) =>
        if Z.of_nat attempt =? max_retries - 1
        then (evs, Raised (delivery_error e))
        else (evs ++ EvSleep (2 ^ Z.of_nat attempt)
                  :: (deliver_loop max_retries destination data rest).1,
              (deliver_loop max_retries destination data rest).2)
    end.
Proof.
  cbn [Http.deliver_loop].
  destruct (deliver_attempt attempt destination data) as [evs [[] | e]]; [done |].
  by destruct (deliver_loop max_retries destination data rest).
Qed.

(** The loop from attempt [a] on, when every attempt before the last
    one, [n - 1], raises. *)
Lemma fetch_loop_run (request : ApiRequest) (n k a : nat) :
  (a + S k = n)%nat →
  (∀ i, (a ≤ i < n - 1)%nat → is_raised (fetch_attempt i request).2 = true) →
  sleeps (fetch_loop (Z.of_nat n) request (seq a (S k))).1 = backoff a k ∧
  (fetch_loop (Z.of_nat n) request (seq a (S k))).2
  = match (fetch_attempt (n - 1) request).2 with
    | Returned response => Returned (Some response)
    | Raised e => Raised (fetch_error e)
    end.
Proof.
  revert a. induction k as [| k IH]; intros a Han Hfail.
  - assert (a = (n - 1)%nat) as -> by lia.
    change (seq (n - 1) 1) with [(n - 1)%nat]. rewrite fetch_loop_cons.
    pose proof (fetch_attempt_sleeps (n - 1) request) as Hs.
    destruct (fetch_attempt (n - 1) request) as [evs [response | e]]; [done |].
    replace (Z.of_nat (n - 1) =? Z.of_nat n - 1) with true
      by (symmetry; apply Z.eqb_eq; lia).
    done.
  - change (seq a (S (S k))) with (a :: seq (S a) (S k)). rewrite fetch_loop_cons.
    pose proof (fetch_attempt_sleeps a request) as Hs.
    specialize (Hfail a ltac:(lia)) as Ha.
    destruct (fetch_attempt a request) as [evs [response | e]]; [done |].
    replace (Z.of_nat a =? Z.of_nat n - 1) with false
      by (symmetry; apply Z.eqb_neq; lia).
    destruct (IH (S a) ltac:(lia)) as [IHs IHr].
    { intros i Hi. apply Hfail. lia. }
    cbn [fst snd] in *. split; [| done].
    by rewrite sleeps_app, Hs, sleeps_cons_sleep, IHs.
Qed.

Lemma deliver_loop_run (destination : ApiRequest) (data : json) (n k a : nat) :
  (a + S k = n)%nat →
  (∀ i, (a ≤ i < n - 1)%nat →
        is_raised (deliver_attempt i destination data).2 = true) →
  sleeps (deliver_loop (Z.of_nat n) destination data (seq a (S k))).1 = backoff a k ∧
  (deliver_loop (Z.of_nat n) destination data (seq a (S k))).2
  = match (deliver_attempt (n - 1) destination data).2 with
    | Returned _ => Returned ()
    | Raised e => Raised (delivery_error e)
    end.
Proof.
  revert a. induction k as [| k IH]; intros a Han Hfail.
  - assert (a = (n - 1)%nat) as -> by lia.
    change (seq (n - 1) 1) with [(n - 1)%nat]. rewrite deliver_loop_cons.
    pose proof (deliver_attempt_sleeps (n - 1) destination data) as Hs.
    destruct (deliver_attempt (n - 1) destination data) as [evs [[] | e]]; [done |].
    replace (Z.of_nat (n - 1) =? Z.of_nat n - 1) with true
      by (symmetry; apply Z.eqb_eq; lia).
    done.
  - change (seq a (S (S k))) with (a :: seq (S a) (S k)). rewrite deliver_loop_cons.
    pose proof (deliver_attempt_sleeps a destination data) as Hs.
    specialize (Hfail a ltac:(lia)) as Ha.
    destruct (deliver_attempt a destination data) as [evs [[] | e]]; [done |].
    replace (Z.of_nat a =? Z.of_nat n - 1) with false
      by (symmetry; apply Z.eqb_neq; lia).
    destruct (IH (S a) ltac:(lia)) as [IHs IHr].
    { intros i Hi. apply Hfail. lia. }
    cbn [fst snd] in *. split; [| done].
    by rewrite sleeps_app, Hs, sleeps_cons_sleep, IHs.
Qed.

Lemma fetch_error_class (e : exn) :
  ∃ msg, fetch_error e = Exn SourceFetchError msg (Some e).
Proof. unfold fetch_error. destruct (exn_class e); by eexists. Qed.

Lemma delivery_error_class (e : exn) :
  ∃ msg, delivery_error e = Exn DeliveryError msg (Some e).
Proof. unfold delivery_error. destruct (exn_class e); by eexists. Qed.


(** With at least one attempt allowed, the loops end in the [return] or
    in a [raise] of the stage error, never by falling off the end. *)
Lemma fetch_loop_ends (request : ApiRequest) (n k a : nat) :
  (a + S k = n)%nat →
  (∃ response, (fetch_loop (Z.of_nat n) request (seq a (S k))).2
               = Returned (Some response))
  ∨ (∃ e, (fetch_loop (Z.of_nat n) request (seq a (S k))).2 = Raised (fetch_error e)).
Proof.
  revert a. induction k as [| k IH]; intros a Han.
  - change (seq a 1) with [a]. rewrite fetch_loop_cons.
    destruct (fetch_attempt a request) as [evs [response | e]]; [by left; eexists |].
    replace (Z.of_nat a =? Z.of_nat n - 1) with true
      by (symmetry; apply Z.eqb_eq; lia).
    right; by eexists.
  - change (seq a (S (S k))) with (a :: seq (S a) (S k)). rewrite fetch_loop_cons.
    destruct (fetch_attempt a request) as [evs [response | e]]; [by left; eexists |].
    replace (Z.of_nat a =? Z.of_nat n - 1) with false
      by (symmetry; apply Z.eqb_neq; lia).
    apply (IH (S a)). lia.
Qed.

Lemma deliver_loop_ends (destination : ApiRequest) (data : json) (n k a : nat) :
  (a + S k = n)%nat →
  requests (deliver_loop (Z.of_nat n) destination data (seq a (S k))).1 ≠ [] ∧
  ((∃ i, (i < n)%nat ∧ (deliver_attempt i destination data).2 = Returned () ∧
         (deliver_loop (Z.of_nat n) destination data (seq a (S k))).2 = Returned ())
   ∨ (∃ e, (deliver_loop (Z.of_nat n) destination data (seq a (S k))).2
           = Raised (delivery_error e))).
Proof.
  revert a. induction k as [| k IH]; intros a Han.
  - change (seq a 1) with [a]. rewrite deliver_loop_cons.
    pose proof (deliver_attempt_requests a destination data) as Hq.
    destruct (deliver_attempt a destination data) as [evs [[] | e]] eqn:Ha;
      cbn [fst snd] in *.
    + split; [by rewrite Hq |]. left. exists a. rewrite Ha. split; [lia | done].
    + replace (Z.of_nat a =? Z.of_nat n - 1) with true
        by (symmetry; apply Z.eqb_eq; lia).
      cbn [fst snd]. split; [by rewrite Hq |]. right; by eexists.
  - change (seq a (S (S k))) with (a :: seq (S a) (S k)). rewrite deliver_loop_cons.
    pose proof (deliver_attempt_requests a destination data) as Hq.
    destruct (deliver_attempt a destination data) as [evs [[] | e]] eqn:Ha;
      cbn [fst snd] in *.
    + split; [by rewrite Hq |]. left. exists a. rewrite Ha. split; [lia | done].
    + replace (Z.of_nat a =? Z.of_nat n - 1) with false
        by (symmetry; apply Z.eqb_neq; lia).
      cbn [fst snd]. split.
      * unfold requests in *. rewrite omap_app, Hq. done.
      * destruct (IH (S a) ltac:(lia)) as [_ Hend]. exact Hend.
Qed.

(** C9: an adapter constructed with a maximum attempt count of 0 makes
    no HTTP attempt, raises nothing and returns None, for every request,
    on the source side and on the destination side; with a count of at
    least 1 the source adapter ends in a response or in a
    SourceFetchError, and the destination adapter makes a request and
    ends after a successful attempt or in a DeliveryError. *)
Theorem zero_attempts_return_none (src : HttpSourceAdapter)
    (dst : HttpDestinationAdapter) (request destination : ApiRequest) (data : json) :
  (source_max_retries src = 0 → fetch src request = ([], Returned None)) ∧
  (destination_max_retries dst = 0 →
   deliver dst destination data = ([], Returned ())) ∧
  (1 ≤ source_max_retries src →
   (∃ response, (fetch src request).2 = Returned (Some response))
   ∨ (∃ msg e, (fetch src request).2 = Raised (Exn SourceFetchError msg (Some e)))) ∧
  (1 ≤ destination_max_retries dst →
   requests (deliver dst destination data).1 ≠ [] ∧
   ((∃ i, (deliver_attempt i destination data).2 = Returned () ∧
          (deliver dst destination data).2 = Returned ())
    ∨ (∃ msg e, (deliver dst destination data).2
                = Raised (Exn DeliveryError msg (Some e))))).
Proof.
  unfold Http.fetch, Http.deliver, range. repeat split.
  - by intros ->.
  - by intros ->.
  - intros Hn.
    destruct (Z.to_nat (source_max_retries src)) as [| k] eqn:Hk; [lia |].
    assert (source_max_retries src = Z.of_nat (S k)) as -> by lia.
    destruct (fetch_loop_ends request (S k) k 0 eq_refl) as [Hok | [e He]];
      [by left |].
    right. destruct (fetch_error_class e) as [msg Hmsg].
    exists msg, e. by rewrite He, Hmsg.
  - destruct (Z.to_nat (destination_max_retries dst)) as [| k] eqn:Hk; [lia |].
    assert (destination_max_retries dst = Z.of_nat (S k)) as -> by lia.
    by destruct (deliver_loop_ends destination data (S k) k 0 eq_refl).
  - destruct (Z.to_nat (destination_max_retries dst)) as [| k] eqn:Hk; [lia |].
    assert (destination_max_retries dst = Z.of_nat (S k)) as -> by lia.
    destruct (deliver_loop_ends destination data (S k) k 0 eq_refl)
      as [_ [(i & _ & Hi & Hr) | [e He]]].
    + left. by exists i.
    + right. destruct (delivery_error_class e) as [msg Hmsg].
      exists msg, e. by rewrite He, Hmsg.
Qed.

End HttpFacts.

(** ** The rule engine: reading the source *)

Section ExtractFacts.
Import Engine.

Lemma extract_keys_returns (h : heap) (keys : list string) (value : val) :
  ∃ v, extract_keys h keys value = Returned v.
Proof.
  revert value. induction keys as [| key keys IH]; intros value; cbn [extract_keys].
  - by eexists.
  - case_bool_decide as Hd; [| by eexists].
    destruct Hd as [items Hitems]. unfold method_get. rewrite Hitems. apply IH.
Qed.

Lemma extract_keys_None (h : heap) (keys : list string) :
  extract_keys h keys VNone = Returned VNone.
Proof. by destruct keys. Qed.

Lemma extract_keys_app (h : heap) (pre rest : list string) (value : val) :
  extract_keys h (pre ++ rest) value
  = match extract_keys h pre value with
    | Returned v => extract_keys h rest v
    | Raised e => Raised e
    end.
Proof.
  revert value. induction pre as [| key pre IH]; intros value; [done |].
  cbn [app extract_keys]. case_bool_decide as Hd.
  - destruct (method_get h value (VStr key) VNone); [apply IH | done].
  - by rewrite extract_keys_None.
Qed.

(** C7: resolving a source path never raises, for any store, document
    and path; an omitted or empty path gives the whole document; and
    when the value reached before some segment of the path is not a
    mapping, or is a mapping without that segment, the result is None. *)
Theorem extract_value_never_raises (h : heap) (data : val) :
  (∀ field_path, ∃ v, _extract_value h data field_path = Returned v) ∧
  _extract_value h data None = Returned data ∧
  _extract_value h data (Some "") = Returned data ∧
  (∀ field_path pre key post reached,
     field_path ≠ "" →
     split "." field_path = pre ++ key :: post →
     extract_keys h pre data = Returned reached →
     as_dict h reached = None
     ∨ (∃ items, as_dict h reached = Some items ∧ dict_get key items = None) →
     _extract_value h data (Some field_path) = Returned VNone).
Proof.
  split; [| split; [done | split; [done |]]].
  - intros [[| c s] |]; cbn [_extract_value]; [by eexists | | by eexists].
    apply extract_keys_returns.
  - intros field_path pre key post reached Hne Hsplit Hpre Hmiss.
    destruct field_path as [| c s]; [done |]. cbn [_extract_value].
    rewrite Hsplit, extract_keys_app, Hpre. cbn [extract_keys].
    destruct Hmiss as [Hnot | (items & Hitems & Hkey)].
    + rewrite Hnot. by rewrite bool_decide_eq_false_2 by (by intros [? ?]).
    + rewrite bool_decide_eq_true_2 by (by rewrite Hitems).
      unfold method_get. rewrite Hitems, Hkey. cbn. apply extract_keys_None.
Qed.

End ExtractFacts.

(** ** The rule engine: the operations and the store *)

Section EngineFacts.
Import Engine.

Context `{PyRuntime}.

Lemma dict_get_set_eq (k : string) (v : val) (items : list (string * val)) :
  dict_get k (dict_set k v items) = Some v.
Proof.
  induction items as [| [k' v'] items IH]; cbn.
  - by rewrite decide_True.
  - case_decide as Hk; cbn; [by rewrite decide_True | by rewrite decide_False].
Qed.

Lemma dict_get_set_ne (k k' : string) (v : val) (items : list (string * val)) :
  k' ≠ k → dict_get k' (dict_set k v items) = dict_get k' items.
Proof.
  intros Hne. induction items as [| [k0 v0] items IH]; cbn.
  - by rewrite decide_False.
  - case_decide as Hk; cbn.
    + subst k0. by rewrite !decide_False.
    + case_decide; [done | apply IH].
Qed.

Lemma def_transform_store (body : heap → val → kwargs → outcome val)
    (value : val) (params : kwargs) (h : heap) :
  (def_transform body value params h).1 = h.
Proof. unfold def_transform. by case_decide. Qed.

Lemma def_transform_call (body : heap → val → kwargs → outcome val)
    (value : val) (params : kwargs) (h : heap) :
  dict_get "value" params = None →
  def_transform body value params h = (h, body h value params).
Proof.
  intros Hp. unfold def_transform. rewrite Hp.
  by rewrite decide_False by (by intros [? ?]).
Qed.

(** The built-in operations leave the store as it is. *)
Lemma builtin_store (name : string) (f : transformation) (value : val)
    (params : kwargs) (h : heap) :
  builtin_transformations !! name = Some f → (f value params h).1 = h.
Proof.
  unfold builtin_transformations. intros Hf.
  repeat (apply lookup_insert_Some in Hf as [[_ <-] | [_ Hf]];
          [apply def_transform_store |]).
  by rewrite lookup_empty in Hf.
Qed.

(** C2: the registry of a newly constructed engine holds the six
    built-in operations, lowercase among them; lowercase applied to any
    value gives the lowercased text of [str(value)], and the empty string
    for None. *)
Theorem builtin_lowercase :
  let registry := _transformation_registry new_engine in
  (registry !! "direct" = Some direct_mapping ∧
   registry !! "format_date" = Some format_date ∧
   registry !! "concatenate" = Some concatenate ∧
   registry !! "uppercase" = Some uppercase ∧
   registry !! "lowercase" = Some lowercase ∧
   registry !! "default_value" = Some default_value) ∧
  (∀ h params, dict_get "value" params = None →
     lowercase VNone params h = (h, Returned (VStr ""))) ∧
  (∀ h value params, dict_get "value" params = None → value ≠ VNone →
     lowercase value params h = (h, Returned (VStr (str_lower (py_str h value))))).
Proof.
  split; [| split].
  - cbn. unfold builtin_transformations. by simplify_map_eq.
  - intros h params Hp. unfold lowercase. by rewrite def_transform_call.
  - intros h value params Hp Hv. unfold lowercase. rewrite def_transform_call by done.
    by destruct value.
Qed.

(** *** What a call does to the store *)

Lemma same_except_refl (l : loc) (h : heap) : same_except l h h.
Proof. by split. Qed.

Lemma same_except_trans (l : loc) (h1 h2 h3 : heap) :
  same_except l h1 h2 → same_except l h2 h3 → same_except l h1 h3.
Proof.
  intros [Hlen12 H12] [Hlen23 H23]. split; [congruence |].
  intros l' Hl'. by rewrite H23, H12.
Qed.

Lemma setitem_store (l : loc) (key : string) (v : val) (h : heap) :
  same_except l h (setitem (VRef l) key v h).1.
Proof.
  unfold setitem. destruct (h !! l) as [[items | elems] |]; cbn [fst];
    try apply same_except_refl.
  split; [apply length_insert |].
  intros l' Hl'. by apply list_lookup_insert_ne.
Qed.

(** A [setitem] that returns has put the value under the key. *)
Lemma setitem_returns (l : loc) (key : string) (v : val) (h h' : heap) (u : unit) :
  setitem (VRef l) key v h = (h', Returned u) →
  ∃ items, h !! l = Some (ODict items) ∧
           h' = <[l := ODict (dict_set key v items)]> h ∧
           h' !! l = Some (ODict (dict_set key v items)).
Proof.
  unfold setitem. destruct (h !! l) as [[items | elems] |] eqn:Hl; try done.
  intros [= <-]. exists items. split; [done | split; [done |]].
  apply list_lookup_insert_eq. by eapply lookup_lt_Some.
Qed.

Lemma apply_transformation_store (f : transformation) (source_data : val)
    (source_field : option string) (params : kwargs) (l : loc) (target_field : string)
    (h : heap) :
  (∀ value, (f value params h).1 = h) →
  same_except l h
    (apply_transformation f source_data source_field params (VRef l) target_field h).1.
Proof.
  intros Hf. unfold apply_transformation.
  destruct (_extract_value h source_data source_field) as [value | e];
    [| apply same_except_refl].
  specialize (Hf value).
  destruct (f value params h) as [h1 [[transformed_value | e] | b]];
    cbn [fst] in Hf; subst h1.
  - apply setitem_store.
  - apply same_except_refl.
  - apply same_except_refl.
Qed.

Lemma apply_rule_store (self : TransformationEngine) (source_data : val) (l : loc)
    (r : rule) (h : heap) :
  _transformation_registry self !! default "direct" (rule_transform r)
  = builtin_transformations !! default "direct" (rule_transform r) →
  same_except l h (apply_rule self source_data (VRef l) r h).1.
Proof.
  intros Hreg. unfold apply_rule.
  destruct (rule_target_field r) as [[| c target] |]; try apply same_except_refl.
  rewrite Hreg.
  destruct (builtin_transformations !! _) as [f |] eqn:Hf; [| apply same_except_refl].
  pose proof (apply_transformation_store f source_data (rule_source_field r)
                (default [] (rule_params r)) l (String c target) h) as Hstore.
  destruct (apply_transformation _ _ _ _ _ _ _) as [h1 [[u | e] | b]]; cbn [fst] in *;
    apply Hstore; intros value; by eapply builtin_store.
Qed.

Lemma apply_rules_store (self : TransformationEngine) (source_data : val) (l : loc)
    (rules : list rule) (h : heap) :
  uses_builtins self rules →
  same_except l h (apply_rules self source_data (VRef l) rules h).1.
Proof.
  revert h. induction rules as [| r rules IH]; intros h Huses; cbn [apply_rules].
  - apply same_except_refl.
  - pose proof (apply_rule_store self source_data l r h) as Hr.
    destruct (apply_rule self source_data (VRef l) r h) as [h1 [[u | e] | b]];
      cbn [fst] in *.
    + eapply same_except_trans; [apply Hr, Huses; by left |].
      apply IH. intros r' Hr'. apply Huses. by right.
    + apply Hr, Huses. by left.
    + apply Hr, Huses. by left.
Qed.

(** Every object that was there before [transform] is the same after. *)
Lemma transform_store (self : TransformationEngine) (source_data : val)
    (rules : list rule) (h : heap) (l : loc) :
  uses_builtins self rules →
  (l < length h)%nat →
  (transform self source_data rules h).1 !! l = h !! l.
Proof.
  intros Huses Hl. unfold transform, alloc.
  pose proof (apply_rules_store self source_data (length h) rules (h ++ [ODict []]) Huses)
    as [_ Hsame].
  destruct (apply_rules _ _ _ _ _) as [h1 [[u | e] | b]]; cbn [fst] in *;
    rewrite Hsame by lia; by apply lookup_app_l.
Qed.

Lemma snapshot_mono (h h' : heap) :
  (∀ (l : loc) o, h !! l = Some o → h' !! l = Some o) →
  ∀ fuel v doc, snapshot fuel h v = Some doc → snapshot fuel h' v = Some doc.
Proof.
  intros Hsub. induction fuel as [| fuel IH]; intros v doc; destruct v; try done.
  cbn [snapshot]. destruct (h !! l) as [o |] eqn:Hl; [| done].
  rewrite (Hsub _ _ Hl). destruct o as [items | elems].
  - intros (kds & Hm & ->)%fmap_Some. apply fmap_Some. exists kds. split; [| done].
    apply mapM_Some in Hm. apply mapM_Some.
    eapply Forall2_impl; [exact Hm |]. cbn. intros [k v] kd.
    intros (d & Hd & ->)%fmap_Some. apply fmap_Some. exists d. split; [| done].
    by apply IH.
  - intros (ds & Hm & ->)%fmap_Some. apply fmap_Some. exists ds. split; [| done].
    apply mapM_Some in Hm. apply mapM_Some.
    eapply Forall2_impl; [exact Hm |]. cbn. intros v d. apply IH.
Qed.

(** C10: with rules that name built-in operations only, [transform]
    never changes the source document, whether it returns or raises:
    every object of the store before the call is the same object after
    it, so the source document reads as before; and the target, when one
    is returned, is an object that did not exist before the call. *)
Theorem transform_preserves_source (self : TransformationEngine) (source_data : val)
    (rules : list rule) (h : heap) :
  uses_builtins self rules →
  let result := transform self source_data rules h in
  (∀ (l : loc) o, h !! l = Some o → result.1 !! l = Some o) ∧
  (∀ fuel doc, snapshot fuel h source_data = Some doc →
               snapshot fuel result.1 source_data = Some doc) ∧
  (∀ target, result.2 = Returned target →
             target = VRef (length h) ∧ h !! length h = None).
Proof.
  intros Huses result.
  assert (∀ (l : loc) o, h !! l = Some o → result.1 !! l = Some o) as Hsub.
  { intros l o Hl. unfold result. rewrite transform_store; [done | done |].
    by eapply lookup_lt_Some. }
  split; [done |]. split; [intros fuel doc; by apply snapshot_mono |].
  intros target. unfold result, transform, alloc.
  destruct (apply_rules _ _ _ _ _) as [h1 [[u | e] | b]]; cbn [snd]; [| done | done].
  intros [= <-]. split; [done |]. by apply lookup_ge_None.
Qed.

(** *** Writing the target *)

Lemma apply_rules_app (self : TransformationEngine) (source_data target : val)
    (pre post : list rule) (h : heap) :
  apply_rules self source_data target (pre ++ post) h
  = match apply_rules self source_data target pre h with
    | (h1, Normal (Returned _)) => apply_rules self source_data target post h1
    | (h1, Normal (Raised e)) => (h1, Raised e)
    | (h1, Escaped b) => (h1, Escaped b)
    end.
Proof.
  revert h. induction pre as [| r pre IH]; intros h.
  { cbn [app apply_rules]. by destruct (apply_rules _ _ _ post h) as [h1 [[[] | e] | b]]. }
  cbn [app apply_rules].
  destruct (apply_rule self source_data target r h) as [h1 [[u | e] | b]];
    [apply IH | done | done].
Qed.

(** A rule that goes through has looked up its operation, resolved its
    source, applied the one to the other, and put the result in the
    target dict under the whole [target_field] string. *)
Lemma apply_rule_returns (self : TransformationEngine) (source_data : val) (l : loc)
    (r : rule) (h h' : heap) (u : unit) :
  apply_rule self source_data (VRef l) r h = (h', Returned u) →
  ∃ target_field (transform_func : transformation) value h1 transformed_value items,
    rule_target_field r = Some target_field ∧
    _transformation_registry self !! default "direct" (rule_transform r)
    = Some transform_func ∧
    _extract_value h source_data (rule_source_field r) = Returned value ∧
    transform_func value (default [] (rule_params r)) h = (h1, Returned transformed_value) ∧
    h1 !! l = Some (ODict items) ∧
    h' !! l = Some (ODict (dict_set target_field transformed_value items)).
Proof.
  unfold apply_rule.
  destruct (rule_target_field r) as [[| c target] |]; try done.
  destruct (_transformation_registry self !! _) as [f |]; [| done].
  unfold apply_transformation.
  destruct (_extract_value h source_data (rule_source_field r)) as [value | e];
    [| done].
  destruct (f value (default [] (rule_params r)) h) as [h1 [[tv | e] | b]] eqn:Hf;
    [| done | done].
  destruct (setitem (VRef l) (String c target) tv h1) as [h2 [[[] | e] | b]] eqn:Hset;
    [| done | done].
  intros [= <-].
  apply setitem_returns in Hset as (items & Hl & _ & Hl').
  by exists (String c target), f, value, h1, tv, items.
Qed.

Lemma dict_set_keys (k k' : string) (v : val) (items : list (string * val)) :
  is_Some (dict_get k' (dict_set k v items)) → k' = k ∨ is_Some (dict_get k' items).
Proof.
  intros Hk'. destruct (decide (k' = k)) as [-> | Hne]; [by left | right].
  by rewrite dict_get_set_ne in Hk'.
Qed.

(** With the built-in operations, the keys of the target dict are keys
    it had or the [target_field] strings of the rules. *)
Lemma apply_rules_keys (self : TransformationEngine) (source_data : val) (l : loc)
    (rules : list rule) (h h' : heap) (u : unit) (items : list (string * val)) :
  uses_builtins self rules →
  apply_rules self source_data (VRef l) rules h = (h', Returned u) →
  h !! l = Some (ODict items) →
  ∃ items', h' !! l = Some (ODict items') ∧
    ∀ k, is_Some (dict_get k items') →
         is_Some (dict_get k items) ∨ ∃ r, r ∈ rules ∧ rule_target_field r = Some k.
Proof.
  revert h items. induction rules as [| r rules IH]; intros h items Huses Hrun Hl.
  - cbn in Hrun. injection Hrun as <- _. exists items. split; [done | by left].
  - cbn [apply_rules] in Hrun.
    destruct (apply_rule self source_data (VRef l) r h) as [h1 [[[] | e] | b]] eqn:Hr;
      [| done | done].
    apply apply_rule_returns in Hr
      as (target & f & value & h0 & tv & items0 & Ht & Hf & _ & Hcall & Hl0 & Hl1).
    assert (h0 = h) as ->.
    { pose proof (Huses r ltac:(by left)) as Hb.
      assert (builtin_transformations !! default "direct" (rule_transform r) = Some f)
        as Hf' by exact (eq_trans (eq_sym Hb) Hf).
      pose proof (builtin_store _ f value (default [] (rule_params r)) h Hf') as Hs.
      by rewrite Hcall in Hs. }
    assert (items0 = items) as -> by congruence.
    destruct (IH h1 _ ltac:(intros r' Hr'; apply Huses; by right) Hrun Hl1)
      as (items' & Hl' & Hkeys).
    exists items'. split; [done |]. intros k Hk.
    destruct (Hkeys k Hk) as [Hset | (r' & Hr' & Hk')].
    + apply dict_set_keys in Hset as [-> | Hold]; [| by left].
      right. exists r. split; [by left | done].
    + right. exists r'. split; [by right | done].
Qed.

(** C1, amended: the engine writes the result of the operation into
    the output document under the rule's whole [target_field] string as
    one top-level key, dots included, and creates no intermediate
    mapping: the output is a new dict; after the last rule its target
    string maps to what the rule's operation returned; and with built-in
    operations its keys are target strings of the rules and nothing
    else.  The rule {target "a.b", source "x", direct} on {"x": 5}
    yields {"a.b": 5}. *)
Theorem transform_writes_literal_key (self : TransformationEngine) (source_data : val)
    (rules : list rule) (h : heap) :
  (∀ h' target_doc,
     transform self source_data rules h = (h', Returned target_doc) →
     ∃ items,
       target_doc = VRef (length h) ∧
       h' !! length h = Some (ODict items) ∧
       (∀ rules' r, rules = rules' ++ [r] →
          ∃ target_field (transform_func : transformation) value h1 h2
            transformed_value,
            apply_rules self source_data (VRef (length h)) rules' (h ++ [ODict []])
            = (h1, Returned ()) ∧
            rule_target_field r = Some target_field ∧
            _transformation_registry self !! default "direct" (rule_transform r)
            = Some transform_func ∧
            _extract_value h1 source_data (rule_source_field r) = Returned value ∧
            transform_func value (default [] (rule_params r)) h1
            = (h2, Returned transformed_value) ∧
            dict_get target_field items = Some transformed_value) ∧
       (uses_builtins self rules →
        ∀ k, is_Some (dict_get k items) →
             ∃ r, r ∈ rules ∧ rule_target_field r = Some k)) ∧
  (let store := load (JObj [("x", JInt 5)]) [] in
   let rule_ab := {| rule_target_field := Some "a.b"; rule_source_field := Some "x";
                     rule_transform := Some "direct"; rule_params := None |} in
   let result := transform new_engine store.2 [rule_ab] store.1 in
   ∃ target, result.2 = Returned target ∧
             snapshot 2 result.1 target = Some (JObj [("a.b", JInt 5)])).
Proof.
  split; [| cbn; eexists; split; reflexivity].
  intros h' target_doc. unfold transform, alloc.
  destruct (apply_rules _ _ _ _ _) as [h1 [[[] | e] | b]] eqn:Hrun; [| done | done].
  intros [= <- <-].
  assert (∃ items, h1 !! length h = Some (ODict items)) as [items Hitems].
  { assert (rules = [] ∨ ∃ rules' r, rules = rules' ++ [r])
      as [-> | (rules' & r & ->)]
      by (destruct rules using rev_ind; eauto).
    - cbn in Hrun. injection Hrun as <-. exists [].
      by rewrite lookup_app_r, Nat.sub_diag by done.
    - rewrite apply_rules_app in Hrun.
      destruct (apply_rules _ _ _ rules' _) as [h2 [[[] | e] | b]]; [| done | done].
      cbn [apply_rules] in Hrun.
      destruct (apply_rule _ _ _ r h2) as [h3 [[[] | e] | b]] eqn:Hr; [| done | done].
      injection Hrun as <-.
      apply apply_rule_returns in Hr as (t & f & v & h0 & tv & its & _ & _ & _ & _ & _ & Hl).
      by eexists. }
  exists items. split; [done |]. split; [done |]. split.
  - intros rules' r ->. rewrite apply_rules_app in Hrun.
    destruct (apply_rules _ _ _ rules' _) as [h2 [[[] | e] | b]] eqn:Hpre;
      [| done | done].
    cbn [apply_rules] in Hrun.
    destruct (apply_rule _ _ _ r h2) as [h3 [[[] | e] | b]] eqn:Hr; [| done | done].
    injection Hrun as <-.
    apply apply_rule_returns in Hr
      as (t & f & v & h0 & tv & its & Ht & Hf & Hv & Hcall & _ & Hl).
    exists t, f, v, h2, h0, tv. repeat (split; [done |]).
    rewrite Hitems in Hl. injection Hl as ->. apply dict_get_set_eq.
  - intros Huses k Hk.
    destruct (apply_rules_keys self source_data (length h) rules _ _ () [] Huses Hrun)
      as (items' & Hl' & Hkeys).
    { by rewrite lookup_app_r, Nat.sub_diag by done. }
    rewrite Hitems in Hl'. injection Hl' as <-.
    destruct (Hkeys k Hk) as [[? ?] | Hr]; [done | exact Hr].
Qed.

(** *** A rule that fails *)

(** The three ways a rule fails, each a TransformationError. *)
Lemma apply_rule_failures (self : TransformationEngine) (source_data target : val)
    (r : rule) (h : heap) :
  (rule_target_field r = None ∨ rule_target_field r = Some "" →
   apply_rule self source_data target r h
   = (h, Raised (Exn TransformationError "Missing target_field in rule" None))) ∧
  (∀ c t, rule_target_field r = Some (String c t) →
     _transformation_registry self !! default "direct" (rule_transform r) = None →
     apply_rule self source_data target r h
     = (h, Raised (Exn TransformationError
                     ("Unknown transformation type: "
                        +:+ default "direct" (rule_transform r)) None))) ∧
  (∀ c t (f : transformation) value h1 e,
     rule_target_field r = Some (String c t) →
     _transformation_registry self !! default "direct" (rule_transform r) = Some f →
     _extract_value h source_data (rule_source_field r) = Returned value →
     f value (default [] (rule_params r)) h = (h1, Raised e) →
     apply_rule self source_data target r h
     = (h1, Raised (Exn TransformationError
                      ("Failed to transform field " +:+ String c t +:+ ": "
                         +:+ exn_str e) (Some e)))).
Proof.
  unfold apply_rule. split; [| split].
  - by intros [-> | ->].
  - by intros c t -> ->.
  - intros c t f value h1 e -> -> Hv Hf. unfold apply_transformation.
    by rewrite Hv, Hf.
Qed.

Lemma apply_rule_raises (self : TransformationEngine) (source_data target : val)
    (r : rule) (h h' : heap) (e : exn) :
  apply_rule self source_data target r h = (h', Raised e) →
  exn_class e = TransformationError.
Proof.
  unfold apply_rule.
  destruct (rule_target_field r) as [[| c t] |]; try by intros [= _ <-].
  destruct (_transformation_registry self !! _) as [f |]; [| by intros [= _ <-]].
  destruct (apply_transformation _ _ _ _ _ _ _) as [h1 [[u | e0] | b]]; [done | | done].
  by intros [= _ <-].
Qed.

Lemma val_closed_lt (h : heap) (l : loc) :
  val_closed h (VRef l) = true → (l < length h)%nat.
Proof. cbn. apply bool_decide_eq_true_1. Qed.

Lemma heap_closed_children (h : heap) (l : loc) (o : obj) (v : val) :
  heap_closed h = true → h !! l = Some o → v ∈ children o → val_closed h v = true.
Proof.
  unfold heap_closed. rewrite forallb_forall. intros Hh Hl Hv.
  specialize (Hh o). rewrite forallb_forall in Hh.
  apply Hh; apply list_elem_of_In; [by eapply list_elem_of_lookup_2 | done].
Qed.

(** From what it held before a call that changed no object of the old
    store, a holder of references reaches old objects only. *)
Lemma reachable_old (h h' : heap) (root : val) (l : loc) :
  (∀ l0 : loc, (l0 < length h)%nat → h' !! l0 = h !! l0) →
  heap_closed h = true →
  val_closed h root = true →
  reachable h' root l → (l < length h)%nat.
Proof.
  intros Hsame Hclosed Hroot Hreach.
  induction Hreach as [l | l o v l' Hl Hv Hreach IH]; [by apply val_closed_lt |].
  apply IH. apply val_closed_lt in Hroot.
  rewrite Hsame in Hl by done. by eapply heap_closed_children.
Qed.

Lemma transform_unobservable (self : TransformationEngine) (source_data : val)
    (rules : list rule) (h : heap) :
  uses_builtins self rules →
  heap_closed h = true →
  forallb (val_closed h) (caller_roots source_data rules) = true →
  ¬ observes_partial_write self source_data rules h.
Proof.
  intros Huses Hclosed Hroots (_ & root & l & items & k & v & Hroot & Hreach & Hl & Hk & Hnew).
  rewrite forallb_forall in Hroots.
  assert (l < length h)%nat as Hold.
  { eapply reachable_old; [| done | | done].
    - intros l0 Hl0. by apply transform_store.
    - apply Hroots. by apply list_elem_of_In. }
  rewrite transform_store in Hl by done.
  by apply (Hnew items).
Qed.

Lemma new_engine_uses_builtins (rules : list rule) : uses_builtins new_engine rules.
Proof. by intros r _. Qed.


End EngineFacts.

Section EngineClosedFacts.
Import Engine.


End EngineClosedFacts.

(** ** The theorems at work on the sample data *)

Section Witnesses.
Import Job UseCases Http Engine Examples.

#[local] Existing Instance ascii_runtime.

(** C1, as stated, fails: the rule with target "a.b" on {"x": 5} gives
    the document {"a.b": 5}, which is not {"a": {"b": 5}}. *)
Lemma dotted_target_is_one_key :
  ∃ h' target,
    transform new_engine x5.2 [rule_ab] x5.1 = (h', Returned target) ∧
    snapshot 3 h' target = Some (JObj [("a.b", JInt 5)]) ∧
    snapshot 3 h' target ≠ Some (JObj [("a", JObj [("b", JInt 5)])]).
Proof. eexists _, _. split; [reflexivity |]. split; [reflexivity | discriminate]. Qed.

(** The two-segment target of the sample rule is one key of the output. *)
Lemma transform_writes_literal_key_witness :
  ∃ h' target items,
    transform new_engine x5.2 [rule_ab] x5.1 = (h', Returned target) ∧
    h' !! length x5.1 = Some (ODict items) ∧
    dict_get "a.b" items = Some (VInt 5) ∧
    dict_get "a" items = None.
Proof.
  destruct (transform_writes_literal_key new_engine x5.2 [rule_ab] x5.1) as [Hw _].
  destruct (Hw _ _ eq_refl) as (items & _ & Hitems & Hlast & Hkeys).
  eexists _, _, items. split; [reflexivity |]. split; [exact Hitems |].
  injection Hitems as <-. split; reflexivity.
Defined.

(** lowercase on a string, on an int and on None. *)
Lemma builtin_lowercase_witness :
  lowercase (VStr "HeLLo") [] [] = ([], Returned (VStr "hello")) ∧
  lowercase (VInt 12) [("x", VNone)] [] = ([], Returned (VStr "12")) ∧
  lowercase VNone [] [] = ([], Returned (VStr "")).
Proof.
  destruct builtin_lowercase as (_ & Hnone & Hstr).
  split; [| split].
  - exact (Hstr [] (VStr "HeLLo") [] eq_refl ltac:(discriminate)).
  - exact (Hstr [] (VInt 12) [("x", VNone)] eq_refl ltac:(discriminate)).
  - exact (Hnone [] [] eq_refl).
Defined.

(** C5, as stated, fails: a port awaited while the task is cancelled
    raises [asyncio.CancelledError]; each use case lets it through
    without calling mark_as_failed, so the job stays in the status of the
    stage, with no error message and no completion time. *)
Lemma cancelled_port_leaves_job_unmarked :
  let fetched := fetch_execute cancelled_fetch 9 (job_in PENDING) get_users () in
  let transformed :=
    transform_execute cancelled_transform 9 (job_in FETCHING) JNull [] () in
  let delivered :=
    deliver_execute cancelled_deliver 9 (job_in TRANSFORMING) JNull post_customers () in
  (fetched.2 = Escaped CancelledError ∧
   status fetched.1.2 = FETCHING ∧ error_message fetched.1.2 = None ∧
   completed_at fetched.1.2 = None) ∧
  (transformed.2 = Escaped CancelledError ∧
   status transformed.1.2 = TRANSFORMING ∧ error_message transformed.1.2 = None ∧
   completed_at transformed.1.2 = None) ∧
  (delivered.2 = Escaped CancelledError ∧
   status delivered.1.2 = DELIVERING ∧ error_message delivered.1.2 = None ∧
   completed_at delivered.1.2 = None).
Proof. by repeat split. Qed.

(** Each use case with a port that raises, a delivery that goes
    through, and a fetch that is cancelled. *)
Lemma use_cases_record_and_reraise_witness :
  fetch_execute failing_fetch 9 (job_in PENDING) get_users ()
  = ((), (mark_as_failed "Failed to fetch source data: Connection timeout" 9
            (job_in FETCHING)).1, Raised boom) ∧
  transform_execute failing_transform 9 (job_in FETCHING) JNull [] ()
  = ((), (mark_as_failed "Failed to transform data: Connection timeout" 9
            (job_in TRANSFORMING)).1, Raised boom) ∧
  deliver_execute failing_deliver 9 (job_in TRANSFORMING) JNull post_customers ()
  = ((), (mark_as_failed "Failed to deliver data: Connection timeout" 9
            (job_in DELIVERING)).1, Raised boom) ∧
  deliver_execute accepting_deliver 9 (job_in TRANSFORMING) JNull post_customers ()
  = ((), (mark_as_completed 9 (job_in DELIVERING)).1, Returned ()) ∧
  fetch_execute cancelled_fetch 9 (job_in PENDING) get_users ()
  = ((), job_in FETCHING, Escaped CancelledError).
Proof.
  split; [| split; [| split; [| split]]].
  - exact (proj1 (use_cases_record_and_reraise failing_fetch failing_transform
                    failing_deliver 9 (job_in PENDING) () () boom CancelledError)
             get_users eq_refl eq_refl).
  - exact (proj1 (proj2 (use_cases_record_and_reraise failing_fetch failing_transform
                           failing_deliver 9 (job_in FETCHING) () () boom
                           CancelledError))
             JNull [] eq_refl eq_refl).
  - exact (proj1 (proj2 (proj2 (use_cases_record_and_reraise failing_fetch
                                  failing_transform failing_deliver 9
                                  (job_in TRANSFORMING) () () boom CancelledError)))
             JNull post_customers eq_refl eq_refl).
  - exact (proj1 (proj2 (proj2 (proj2 (use_cases_record_and_reraise failing_fetch
                                  failing_transform accepting_deliver 9
                                  (job_in TRANSFORMING) () () boom CancelledError))))
             JNull post_customers () eq_refl eq_refl).
  - exact (proj1 (proj2 (proj2 (proj2 (proj2
             (use_cases_record_and_reraise cancelled_fetch failing_transform
                failing_deliver 9 (job_in PENDING) () () boom CancelledError)))))
             get_users eq_refl eq_refl).
Defined.


(** Adapters with no attempt and with one attempt allowed. *)
Lemma zero_attempts_return_none_witness :
  fetch flaky_network stopwatch (mkSource 0 30) get_users = ([], Returned None) ∧
  deliver flaky_network (mkDestination 0 60) post_customers JNull = ([], Returned ()) ∧
  (fetch flaky_network stopwatch (mkSource 1 30) get_users).2 ≠ Returned None ∧
  requests (deliver flaky_network (mkDestination 1 60) post_customers JNull).1 ≠ [].
Proof.
  destruct (zero_attempts_return_none flaky_network stopwatch (mkSource 0 30)
              (mkDestination 0 60) get_users post_customers JNull)
    as (Hf & Hd & _ & _).
  destruct (zero_attempts_return_none flaky_network stopwatch (mkSource 1 30)
              (mkDestination 1 60) get_users post_customers JNull)
    as (_ & _ & Hf1 & Hd1).
  split; [exact (Hf eq_refl) |]. split; [exact (Hd eq_refl) |]. split.
  - destruct (Hf1 ltac:(cbn; lia)) as [[response Hr] | (msg & e & Hr)];
      rewrite Hr; discriminate.
  - exact (proj1 (Hd1 ltac:(cbn; lia))).
Defined.

(** Paths through an int and to a missing key of {"a": 5}. *)
Lemma extract_value_never_raises_witness :
  (∃ v, _extract_value a5.1 a5.2 (Some "a.b.c") = Returned v) ∧
  _extract_value a5.1 a5.2 (Some "a.b") = Returned VNone ∧
  _extract_value a5.1 a5.2 (Some "z") = Returned VNone.
Proof.
  destruct (extract_value_never_raises a5.1 a5.2) as (Htotal & _ & _ & Hmiss).
  split; [apply Htotal |]. split.
  - apply (Hmiss "a.b" ["a"] "b" [] (VInt 5)); [discriminate | reflexivity.. | by left].
  - apply (Hmiss "z" [] "z" [] a5.2); [discriminate | reflexivity.. |].
    right. by exists [("a", VInt 5)].
Defined.

(** A failing call leaves the source document as it was. *)
Lemma transform_preserves_source_witness :
  let result := transform new_engine x5.2 [rule_ab; rule_unknown] x5.1 in
  is_raised result.2 = true ∧
  result.1 !! 0%nat = Some (ODict [("x", VInt 5)]) ∧
  snapshot 3 result.1 x5.2 = Some (JObj [("x", JInt 5)]).
Proof.
  intros result.
  destruct (transform_preserves_source new_engine x5.2 [rule_ab; rule_unknown] x5.1
              (new_engine_uses_builtins _)) as (Hobj & Hdoc & _).
  split; [reflexivity |]. split.
  - apply Hobj. reflexivity.
  - apply Hdoc. reflexivity.
Defined.


(** The operations on the examples of the specification. *)
Example concatenate_john_doe :
  (concatenate john.2 [("fields", first_last.2); ("separator", VStr " ")]
     first_missing.1).2 = Returned (VStr "John Doe") ∧
  (concatenate john.2 [("fields", first_missing.2); ("separator", VStr " ")]
     first_missing.1).2 = Returned (VStr "John ") ∧
  (concatenate john.2 [("fields", first_last.2)] first_missing.1).2
  = Returned (VStr "John Doe") ∧
  (concatenate john.2 [("fields", first_last.2); ("separator", VInt 1)]
     first_missing.1).2
  = Raised (Exn AttributeError "'int' object has no attribute 'join'" None).
Proof. repeat split. Qed.

Example default_value_examples :
  (default_value VNone [("default", VStr "x")] []).2 = Returned (VStr "x") ∧
  (default_value (VStr "") [("default", VStr "x")] []).2 = Returned (VStr "x") ∧
  (default_value (VStr "y") [("default", VStr "x")] []).2 = Returned (VStr "y") ∧
  (default_value (VInt 0) [] []).2 = Returned (VInt 0).
Proof. repeat split. Qed.

Example uppercase_examples :
  (uppercase (VStr "john doe") [] []).2 = Returned (VStr "JOHN DOE") ∧
  (uppercase VNone [] []).2 = Returned (VStr "") ∧
  (uppercase (VBool true) [] []).2 = Returned (VStr "TRUE") ∧
  (format_date (VStr "") [] []).2 = Returned (VStr "").
Proof. repeat split. Qed.

Example empty_rule_list :
  ∃ h', transform new_engine x5.2 [] x5.1 = (h', Returned (VRef 1%nat)) ∧
        snapshot 3 h' (VRef 1%nat) = Some (JObj []).
Proof. eexists. split; reflexivity. Qed.

End Witnesses.

(** * Further properties *)

(** ** The job: what no sequence of calls does *)

Section JobFurther.
Import Job Notions.

Lemma do_call_identity (c : call) (j : TransformationJob) :
  let j' := (do_call c j).1 in
  id j' = id j ∧ customer_id j' = customer_id j ∧
  config_name j' = config_name j ∧ created_at j' = created_at j.
Proof.
  destruct c; cbn;
    unfold mark_as_fetching, mark_as_transforming, mark_as_delivering;
    try case_decide; done.
Qed.

(** X1: no sequence of mark_as_* calls changes the id, the customer,
    the configuration name or the creation time of a job. *)
Theorem run_keeps_identity (cs : list call) (j : TransformationJob) :
  id (run cs j) = id j ∧ customer_id (run cs j) = customer_id j ∧
  config_name (run cs j) = config_name j ∧ created_at (run cs j) = created_at j.
Proof.
  revert j. induction cs as [| c cs IH]; intros j; [done |]. cbn [run].
  destruct (IH (do_call c j).1) as (-> & -> & -> & ->). apply do_call_identity.
Qed.

Lemma do_call_rank (c : call) (j : TransformationJob) :
  (rank (status j) ≤ rank (status (do_call c j).1))%nat.
Proof.
  destruct j as [i cu cf st cr co em]. destruct c, st; vm_compute; lia.
Qed.

(** X2: the status of a job never moves back along PENDING, FETCHING,
    TRANSFORMING, DELIVERING, terminal, whatever calls are made; so a job
    that is COMPLETED or FAILED stays COMPLETED or FAILED. *)
Theorem status_never_goes_back (cs : list call) (j : TransformationJob) :
  (rank (status j) ≤ rank (status (run cs j)))%nat ∧
  (status j = COMPLETED ∨ status j = FAILED →
   status (run cs j) = COMPLETED ∨ status (run cs j) = FAILED).
Proof.
  assert (rank (status j) ≤ rank (status (run cs j)))%nat as Hrank.
  { revert j. induction cs as [| c cs IH]; intros j; [done |]. cbn [run].
    etrans; [apply (do_call_rank c) | apply IH]. }
  split; [done |]. intros Hterminal.
  destruct (status (run cs j)); destruct Hterminal as [Hs | Hs];
    rewrite Hs in Hrank; cbn in Hrank; try lia; auto.
Qed.

Lemma do_call_keeps_records (c : call) (j : TransformationJob) :
  (is_Some (completed_at j) → is_Some (completed_at (do_call c j).1)) ∧
  (is_Some (error_message j) → is_Some (error_message (do_call c j).1)).
Proof.
  destruct c; cbn;
    unfold mark_as_fetching, mark_as_transforming, mark_as_delivering;
    try case_decide; cbn; split; try done; by eexists.
Qed.

(** X3: no call erases a record: once completed_at is set it stays set,
    and once error_message is set it stays set, through any sequence of
    calls, from any job. *)
Theorem records_are_never_erased (cs : list call) (j : TransformationJob) :
  (is_Some (completed_at j) → is_Some (completed_at (run cs j))) ∧
  (is_Some (error_message j) → is_Some (error_message (run cs j))).
Proof.
  revert j. induction cs as [| c cs IH]; intros j; [done |]. cbn [run].
  destruct (IH (do_call c j).1) as [IHc IHm].
  destruct (do_call_keeps_records c j) as [Hc Hm]. split; auto.
Qed.

End JobFurther.

(** ** The use cases: order, composition, invariant *)

Section UseCaseFurther.
Import Job UseCases.

Context {World Data Rules : Type}.
Variable fetch : ApiRequest → World → World * completion ApiResponse.
Variable transform : Data → Rules → World → World * completion Data.
Variable deliver : ApiRequest → Data → World → World * completion unit.
Variable now : datetime.

(** X4: a use case run on a job that is not in the status its stage
    starts from raises the invalid-transition error without calling its
    port (the world is as before) and leaves the job as it was; so a
    FAILED or COMPLETED job is touched by no use case. *)
Theorem use_cases_refuse_out_of_order (job : TransformationJob) (w : World) :
  (status job ≠ PENDING →
   ∀ request_config, ∃ msg,
     fetch_execute fetch now job request_config w
     = (w, job, Raised (Exn ValueError msg None))) ∧
  (status job ≠ FETCHING →
   ∀ source_data rules, ∃ msg,
     transform_execute transform now job source_data rules w
     = (w, job, Raised (Exn ValueError msg None))) ∧
  (status job ≠ TRANSFORMING →
   ∀ transformed_data destination_config, ∃ msg,
     deliver_execute deliver now job transformed_data destination_config w
     = (w, job, Raised (Exn ValueError msg None))).
Proof.
  split; [| split].
  - intros Hs request_config. unfold fetch_execute, mark_as_fetching.
    rewrite decide_True by done. by eexists.
  - intros Hs source_data rules. unfold transform_execute, mark_as_transforming.
    rewrite decide_True by done. by eexists.
  - intros Hs transformed_data destination_config.
    unfold deliver_execute, mark_as_delivering.
    rewrite decide_True by done. by eexists.
Qed.

Lemma fetch_execute_returned (job j1 : TransformationJob) (request_config : ApiRequest)
    (w w1 : World) (response : ApiResponse) :
  fetch_execute fetch now job request_config w = (w1, j1, Returned response) →
  status job = PENDING ∧ j1 = set_status FETCHING job ∧
  fetch request_config w = (w1, Returned response).
Proof.
  unfold fetch_execute, mark_as_fetching. case_decide as Hs; [done |].
  destruct (fetch request_config w) as [w' [[r | e] | b]]; [| done | done].
  by intros [= <- <- <-].
Qed.

Lemma transform_execute_returned (job j1 : TransformationJob) (source_data : Data)
    (rules : Rules) (w w1 : World) (transformed_data : Data) :
  transform_execute transform now job source_data rules w
  = (w1, j1, Returned transformed_data) →
  status job = FETCHING ∧ j1 = set_status TRANSFORMING job ∧
  transform source_data rules w = (w1, Returned transformed_data).
Proof.
  unfold transform_execute, mark_as_transforming. case_decide as Hs; [done |].
  destruct (transform source_data rules w) as [w' [[r | e] | b]]; [| done | done].
  by intros [= <- <- <-].
Qed.

Lemma deliver_execute_returned (job j1 : TransformationJob) (transformed_data : Data)
    (destination_config : ApiRequest) (w w1 : World) (u : unit) :
  deliver_execute deliver now job transformed_data destination_config w
  = (w1, j1, Returned u) →
  status job = TRANSFORMING ∧
  j1 = (mark_as_completed now (set_status DELIVERING job)).1 ∧
  ∃ u', deliver destination_config transformed_data w = (w1, Returned u').
Proof.
  unfold deliver_execute, mark_as_delivering. case_decide as Hs; [done |].
  destruct (deliver destination_config transformed_data w) as [w' [[r | e] | b]];
    [| done | done].
  intros [= <- <-]. by eauto.
Qed.

(** X5: when the three use cases are run one after the other on a job
    and each returns, the job was PENDING at the start and is COMPLETED
    at the end with completed_at the time of the delivery; its error
    message, id, customer, configuration and creation time are as at the
    start; and each port was called once, in the order fetch, transform,
    deliver, each in the world the one before left. *)
Theorem pipeline_completes (job j1 j2 j3 : TransformationJob) (w w1 w2 w3 : World)
    (request_config destination_config : ApiRequest) (response : ApiResponse)
    (source_data transformed_data payload : Data) (rules : Rules) :
  fetch_execute fetch now job request_config w = (w1, j1, Returned response) →
  transform_execute transform now j1 source_data rules w1
  = (w2, j2, Returned transformed_data) →
  deliver_execute deliver now j2 payload destination_config w2
  = (w3, j3, Returned ()) →
  status job = PENDING ∧
  status j3 = COMPLETED ∧
  completed_at j3 = Some now ∧
  error_message j3 = error_message job ∧
  (id j3, customer_id j3, config_name j3, created_at j3)
  = (id job, customer_id job, config_name job, created_at job) ∧
  fetch request_config w = (w1, Returned response) ∧
  transform source_data rules w1 = (w2, Returned transformed_data) ∧
  deliver destination_config payload w2 = (w3, Returned ()).
Proof.
  intros (Hs & -> & Hf)%fetch_execute_returned
         (_ & -> & Ht)%transform_execute_returned
         (_ & -> & [[] Hd])%deliver_execute_returned.
  by repeat split.
Qed.

(** X6: each use case keeps the invariant of the job whatever its port
    does: completed_at set exactly in the two terminal statuses, an
    error message whenever FAILED and only when FAILED or COMPLETED. *)
Theorem use_cases_keep_invariant (job : TransformationJob) (w : World) :
  job_invariant job →
  (∀ request_config,
     job_invariant (fetch_execute fetch now job request_config w).1.2) ∧
  (∀ source_data rules,
     job_invariant (transform_execute transform now job source_data rules w).1.2) ∧
  (∀ transformed_data destination_config,
     job_invariant
       (deliver_execute deliver now job transformed_data destination_config w).1.2).
Proof.
  intros Hinv.
  assert (∀ c, job_invariant (do_call c job).1) as Hcall
    by (intros c; by apply do_call_invariant).
  split; [| split].
  - intros request_config. unfold fetch_execute.
    pose proof (Hcall CallFetching) as H1. cbn [do_call] in H1.
    destruct (mark_as_fetching job) as [j1 [u | e]] eqn:Hm; [| done].
    destruct (fetch request_config w) as [w1 [[r | e] | b]]; [done | | done].
    exact (do_call_invariant (CallFailed _ now) j1 H1).
  - intros source_data rules. unfold transform_execute.
    pose proof (Hcall CallTransforming) as H1. cbn [do_call] in H1.
    destruct (mark_as_transforming job) as [j1 [u | e]] eqn:Hm; [| done].
    destruct (transform source_data rules w) as [w1 [[r | e] | b]]; [done | | done].
    exact (do_call_invariant (CallFailed _ now) j1 H1).
  - intros transformed_data destination_config. unfold deliver_execute.
    pose proof (Hcall CallDelivering) as H1. cbn [do_call] in H1.
    destruct (mark_as_delivering job) as [j1 [u | e]] eqn:Hm; [| done].
    destruct (deliver destination_config transformed_data w) as [w1 [[r | e] | b]].
    + exact (do_call_invariant (CallCompleted now) j1 H1).
    + exact (do_call_invariant (CallFailed _ now) j1 H1).
    + done.
Qed.

End UseCaseFurther.

(** ** The adapters: effort, first success, what goes on the wire *)

Section HttpFurther.
Import Job Http Notions.

Context `{PyRuntime}.
Variable network : nat → http_call → outcome http_response.
Variable stopwatch_ms : nat → spec_float.

Local Abbreviation fetch_attempt := (Http.fetch_attempt network stopwatch_ms).
Local Abbreviation fetch_loop := (Http.fetch_loop network stopwatch_ms).
Local Abbreviation fetch := (Http.fetch network stopwatch_ms).
Local Abbreviation deliver_attempt := (Http.deliver_attempt network).
Local Abbreviation deliver_loop := (Http.deliver_loop network).
Local Abbreviation deliver := (Http.deliver network).

(** X7: the destination adapter follows the same retry policy as the
    source adapter: with a maximum attempt count [n >= 1], when the
    attempts [0 .. n-2] fail it waits [2^0, ..., 2^(n-2)] seconds, one
    wait after each failed attempt; it returns if attempt [n-1] succeeds,
    and otherwise raises a DeliveryError whose cause is the exception of
    that last attempt. *)
Theorem deliver_retry_policy (self : HttpDestinationAdapter) (destination : ApiRequest)
    (data : json) (n : nat) :
  destination_max_retries self = Z.of_nat n →
  (1 ≤ n)%nat →
  (∀ i, (i < n - 1)%nat → is_raised (deliver_attempt i destination data).2 = true) →
  sleeps (deliver self destination data).1 = (λ i, 2 ^ Z.of_nat i) <$> seq 0 (n - 1) ∧
  ((deliver_attempt (n - 1) destination data).2 = Returned () →
   (deliver self destination data).2 = Returned ()) ∧
  (∀ e,
     (deliver_attempt (n - 1) destination data).2 = Raised e →
     ∃ msg, (deliver self destination data).2
            = Raised (Exn DeliveryError msg (Some e))).
Proof.
  intros Hmax Hn Hfail. unfold Http.deliver, range. rewrite Hmax, Nat2Z.id.
  destruct n as [| k]; [lia |].
  destruct (deliver_loop_run network destination data (S k) k 0) as [Hs Hr]; [lia | |].
  { intros i Hi. apply Hfail. lia. }
  replace (S k - 1)%nat with k in * by lia.
  rewrite Hs, Hr. split; [done |]. split.
  - by intros ->.
  - intros e ->. destruct (delivery_error_class e) as [msg ->]. by exists msg.
Qed.

Lemma fetch_attempt_requests (attempt : nat) (request : ApiRequest) :
  requests (fetch_attempt attempt request).1 = [attempt]
  ∨ requests (fetch_attempt attempt request).1 = [].
Proof.
  unfold Http.fetch_attempt, _make_request.
  repeat case_decide; cbn;
    try (destruct (network _ _) as [response | e];
         [destruct (resp_status_error response) |]; cbn); auto.
Qed.

Lemma requests_app (evs evs' : list event) :
  requests (evs ++ evs') = requests evs ++ requests evs'.
Proof. unfold requests. apply omap_app. Qed.

Lemma requests_cons_sleep (seconds : Z) (evs : list event) :
  requests (EvSleep seconds :: evs) = requests evs.
Proof. reflexivity. Qed.

Lemma fetch_loop_first_success (request : ApiRequest) (response : ApiResponse)
    (n k m a : nat) :
  (a + k + S m = n)%nat →
  (∀ i, (a ≤ i < a + k)%nat → is_raised (fetch_attempt i request).2 = true) →
  (fetch_attempt (a + k) request).2 = Returned response →
  (fetch_loop (Z.of_nat n) request (seq a (k + S m))).2 = Returned (Some response) ∧
  sleeps (fetch_loop (Z.of_nat n) request (seq a (k + S m))).1 = backoff a k ∧
  Forall (λ i, (i ≤ a + k)%nat) (requests (fetch_loop (Z.of_nat n) request
                                              (seq a (k + S m))).1).
Proof.
  revert a. induction k as [| k IH]; intros a Han Hfail Hok.
  - rewrite Nat.add_0_r in *. change (seq a (0 + S m)) with (a :: seq (S a) m).
    rewrite (fetch_loop_cons network stopwatch_ms).
    pose proof (fetch_attempt_sleeps network stopwatch_ms a request) as Hs.
    pose proof (fetch_attempt_requests a request) as Hq.
    destruct (fetch_attempt a request) as [evs [r | e]]; cbn [fst snd] in *; [| done].
    injection Hok as ->. split; [done |]. split; [done |].
    destruct Hq as [-> | ->]; repeat constructor.
  - change (seq a (S k + S m)) with (a :: seq (S a) (k + S m)).
    rewrite (fetch_loop_cons network stopwatch_ms).
    pose proof (fetch_attempt_sleeps network stopwatch_ms a request) as Hs.
    pose proof (fetch_attempt_requests a request) as Hq.
    specialize (Hfail a ltac:(lia)) as Ha.
    destruct (fetch_attempt a request) as [evs [r | e]]; cbn [fst snd] in *; [done |].
    replace (Z.of_nat a =? Z.of_nat n - 1) with false
      by (symmetry; apply Z.eqb_neq; lia).
    destruct (IH (S a)) as (IHr & IHs & IHq); [lia | | |].
    { intros i Hi. apply Hfail. lia. }
    { by replace (S a + k)%nat with (a + S k)%nat by lia. }
    cbn [fst snd]. split; [done |]. split.
    + by rewrite sleeps_app, Hs, sleeps_cons_sleep, IHs.
    + rewrite requests_app. apply Forall_app. split.
      * destruct Hq as [-> | ->]; repeat constructor. lia.
      * cbn. eapply Forall_impl; [exact IHq |]. cbn. lia.
Qed.

(** X8: the source adapter stops at the first attempt that succeeds:
    if the attempts before attempt [k] fail and attempt [k] succeeds,
    with [k] below the maximum attempt count, it returns the response of
    attempt [k], has waited [2^0, ..., 2^(k-1)] seconds, and makes no
    attempt after [k]. *)
Theorem fetch_stops_at_first_success (self : HttpSourceAdapter) (request : ApiRequest)
    (response : ApiResponse) (n k : nat) :
  source_max_retries self = Z.of_nat n →
  (k < n)%nat →
  (∀ i, (i < k)%nat → is_raised (fetch_attempt i request).2 = true) →
  (fetch_attempt k request).2 = Returned response →
  (fetch self request).2 = Returned (Some response) ∧
  sleeps (fetch self request).1 = (λ i, 2 ^ Z.of_nat i) <$> seq 0 k ∧
  Forall (λ i, (i ≤ k)%nat) (requests (fetch self request).1).
Proof.
  intros Hmax Hk Hfail Hok. unfold Http.fetch, range. rewrite Hmax, Nat2Z.id.
  replace n with (k + S (n - k - 1))%nat at 2 4 6 by lia.
  apply (fetch_loop_first_success request response n k (n - k - 1) 0); [lia | | done].
  intros i Hi. apply Hfail. lia.
Qed.

Lemma backoff_total (a m : nat) :
  foldr Z.add 0 (backoff a m) = 2 ^ Z.of_nat a * (2 ^ Z.of_nat m - 1).
Proof.
  revert a. induction m as [| m IH]; intros a; [cbn; lia |].
  change (backoff a (S m)) with (2 ^ Z.of_nat a :: backoff (S a) m).
  cbn [foldr]. rewrite IH.
  rewrite !Nat2Z.inj_succ, !Z.pow_succ_r by lia. lia.
Qed.

Lemma fetch_loop_effort (request : ApiRequest) (n k a : nat) :
  (a + k = n)%nat →
  ∃ m, (m ≤ k - 1)%nat ∧
       sleeps (fetch_loop (Z.of_nat n) request (seq a k)).1 = backoff a m ∧
       (length (requests (fetch_loop (Z.of_nat n) request (seq a k)).1) ≤ m + 1)%nat ∧
       (length (requests (fetch_loop (Z.of_nat n) request (seq a k)).1) ≤ k)%nat.
Proof.
  revert a. induction k as [| k IH]; intros a Han.
  - exists 0%nat. cbn. repeat split; lia.
  - change (seq a (S k)) with (a :: seq (S a) k).
    rewrite (fetch_loop_cons network stopwatch_ms).
    pose proof (fetch_attempt_sleeps network stopwatch_ms a request) as Hs.
    assert (length (requests (fetch_attempt a request).1) ≤ 1)%nat as Hq
      by (destruct (fetch_attempt_requests a request) as [-> | ->]; cbn; lia).
    destruct (fetch_attempt a request) as [evs [r | e]]; cbn [fst snd] in *.
    { exists 0%nat. repeat split; [lia | done | lia | lia]. }
    destruct (Z.of_nat a =? Z.of_nat n - 1) eqn:Hlast; cbn [fst snd].
    { exists 0%nat. repeat split; [lia | done | lia | lia]. }
    apply Z.eqb_neq in Hlast.
    destruct (IH (S a) ltac:(lia)) as (m & Hm & IHs & IHq & IHk).
    exists (S m). split; [lia |]. split; [| split].
    + by rewrite sleeps_app, Hs, sleeps_cons_sleep, IHs.
    + rewrite requests_app, length_app, requests_cons_sleep. lia.
    + rewrite requests_app, length_app, requests_cons_sleep. lia.
Qed.

(** X9: whatever the network does, the source adapter makes at most
    as many requests as its maximum attempt count (none when the count is
    zero or negative), and its waits are an initial part
    [2^0, ..., 2^(m-1)] of the backoff schedule with [m] below the count:
    one wait fewer than requests at the least, and less than
    [2^(count - 1)] seconds slept in all. *)
Theorem fetch_effort_is_bounded (self : HttpSourceAdapter) (request : ApiRequest) :
  let n := Z.to_nat (source_max_retries self) in
  let evs := (fetch self request).1 in
  (length (requests evs) ≤ n)%nat ∧
  ∃ m, (m ≤ n - 1)%nat ∧
       sleeps evs = (λ i, 2 ^ Z.of_nat i) <$> seq 0 m ∧
       (length (requests evs) ≤ m + 1)%nat ∧
       total_sleep evs = 2 ^ Z.of_nat m - 1 ∧
       total_sleep evs < 2 ^ Z.of_nat (n - 1).
Proof.
  intros n evs. unfold evs, Http.fetch, range. fold n.
  destruct (decide (source_max_retries self ≤ 0)) as [Hneg | Hpos].
  - replace n with 0%nat by lia. cbn. split; [lia |]. exists 0%nat.
    cbn. repeat split; lia.
  - replace (source_max_retries self) with (Z.of_nat n) by lia.
    destruct (fetch_loop_effort request n n 0 eq_refl) as (m & Hm & Hs & Hq & Hk).
    split; [done |]. exists m. split; [done |]. split; [done |]. split; [done |].
    unfold total_sleep. rewrite Hs, backoff_total.
    change (2 ^ Z.of_nat 0) with 1. split; [lia |].
    assert (2 ^ Z.of_nat m ≤ 2 ^ Z.of_nat (n - 1))
      by (apply Z.pow_le_mono_r; lia).
    lia.
Qed.

Lemma only_sleeps (zs : list Z) :
  requests (EvSleep <$> zs) = [] ∧ sleeps (EvSleep <$> zs) = zs.
Proof.
  induction zs as [| z zs [IHq IHs]]; [done |].
  by rewrite fmap_cons, requests_cons_sleep, sleeps_cons_sleep, IHs.
Qed.

Lemma fetch_loop_unsupported (request : ApiRequest) (n k a : nat) :
  let verb := str_upper (method request) in
  verb ≠ "GET" → verb ≠ "POST" → verb ≠ "PUT" → verb ≠ "DELETE" →
  (a + S k = n)%nat →
  let cause := Exn ValueError ("Unsupported HTTP method: " +:+ verb) None in
  fetch_loop (Z.of_nat n) request (seq a (S k))
  = (EvSleep <$> backoff a k,
     Raised (Exn SourceFetchError ("Unexpected error: " +:+ exn_str cause)
               (Some cause))).
Proof.
  intros verb Hget Hpost Hput Hdelete. revert a.
  assert (∀ i, fetch_attempt i request
               = ([], Raised (Exn ValueError ("Unsupported HTTP method: " +:+ verb)
                                None))) as Hattempt.
  { intros i. unfold Http.fetch_attempt, _make_request. fold verb.
    by rewrite !decide_False by done. }
  induction k as [| k IH]; intros a Han cause.
  - change (seq a 1) with [a].
    rewrite (fetch_loop_cons network stopwatch_ms), Hattempt.
    by replace (Z.of_nat a =? Z.of_nat n - 1) with true
      by (symmetry; apply Z.eqb_eq; lia).
  - change (seq a (S (S k))) with (a :: seq (S a) (S k)).
    rewrite (fetch_loop_cons network stopwatch_ms), Hattempt.
    replace (Z.of_nat a =? Z.of_nat n - 1) with false
      by (symmetry; apply Z.eqb_neq; lia).
    by rewrite (IH (S a)) by lia.
Qed.

(** X10: a request whose method, upper-cased, is none of GET, POST,
    PUT and DELETE is never sent: the source adapter, with a maximum
    attempt count [n >= 1], makes no HTTP request, still waits through
    the whole backoff schedule [2^0, ..., 2^(n-2)], and raises a
    SourceFetchError "Unexpected error: Unsupported HTTP method: ..."
    whose cause is the ValueError. *)
Theorem unsupported_method_is_retried (self : HttpSourceAdapter) (request : ApiRequest)
    (n : nat) :
  let verb := str_upper (method request) in
  verb ≠ "GET" → verb ≠ "POST" → verb ≠ "PUT" → verb ≠ "DELETE" →
  source_max_retries self = Z.of_nat n →
  (1 ≤ n)%nat →
  requests (fetch self request).1 = [] ∧
  sleeps (fetch self request).1 = (λ i, 2 ^ Z.of_nat i) <$> seq 0 (n - 1) ∧
  (fetch self request).2
  = Raised (Exn SourceFetchError
              ("Unexpected error: Unsupported HTTP method: " +:+ verb)
              (Some (Exn ValueError ("Unsupported HTTP method: " +:+ verb) None))).
Proof.
  intros verb Hget Hpost Hput Hdelete Hmax Hn. unfold Http.fetch, range.
  rewrite Hmax, Nat2Z.id. destruct n as [| k]; [lia |].
  rewrite (fetch_loop_unsupported request (S k) k 0) by done.
  replace (S k - 1)%nat with k by lia. cbn [fst snd]. split; [| split; [| done]].
  - apply only_sleeps.
  - apply only_sleeps.
Qed.

Lemma sent_app (evs evs' : list event) : sent (evs ++ evs') = sent evs ++ sent evs'.
Proof. unfold sent. apply omap_app. Qed.

Lemma deliver_loop_sent (max_retries : Z) (destination : ApiRequest) (data : json)
    (attempts : list nat) :
  Forall (λ c, c = {| call_verb := "POST"; call_url := url destination;
                      call_headers := headers destination;
                      call_params := params destination;
                      call_timeout := timeout destination;
                      call_json := Some data |})
         (sent (deliver_loop max_retries destination data attempts).1).
Proof.
  induction attempts as [| attempt rest IH]; [constructor |].
  rewrite (deliver_loop_cons network).
  assert (sent (deliver_attempt attempt destination data).1
          = [{| call_verb := "POST"; call_url := url destination;
                call_headers := headers destination;
                call_params := params destination;
                call_timeout := timeout destination; call_json := Some data |}])
    as Hsent.
  { unfold Http.deliver_attempt. destruct (network _ _) as [response | e]; [| done].
    by destruct (resp_status_error response). }
  destruct (deliver_attempt attempt destination data) as [evs [[] | e]];
    cbn [fst snd] in *.
  - rewrite Hsent. by repeat constructor.
  - destruct (Z.of_nat attempt =? max_retries - 1); cbn [fst].
    + rewrite Hsent. by repeat constructor.
    + rewrite sent_app, Hsent. cbn. by constructor.
Qed.

Lemma fetch_loop_sent (max_retries : Z) (request : ApiRequest) (attempts : list nat) :
  Forall (λ c, call_verb c = str_upper (method request) ∧
               call_url c = url request ∧
               call_headers c = headers request ∧
               call_params c = params request ∧
               call_timeout c = timeout request ∧
               call_json c = (if bool_decide (call_verb c = "POST"
                                              ∨ call_verb c = "PUT")
                              then body request else None))
         (sent (fetch_loop max_retries request attempts).1).
Proof.
  set (P := λ c : http_call, _).
  assert (∀ attempt, Forall P (sent (fetch_attempt attempt request).1)) as Hattempt.
  { intros attempt. unfold Http.fetch_attempt, _make_request.
    repeat case_decide; cbn;
      try (destruct (network _ _) as [response | e];
           [destruct (resp_status_error response) |]; cbn);
      repeat constructor; cbn; try done. }
  induction attempts as [| attempt rest IH]; [constructor |].
  rewrite (fetch_loop_cons network stopwatch_ms).
  specialize (Hattempt attempt).
  destruct (fetch_attempt attempt request) as [evs [r | e]]; cbn [fst snd] in *;
    [done |].
  destruct (Z.of_nat attempt =? max_retries - 1); cbn [fst]; [done |].
  rewrite sent_app. apply Forall_app. split; [done |]. exact IH.
Qed.

(** X11: every request the destination adapter sends is a POST of the
    given data to the destination's url with its headers, params and
    timeout, whatever method and body the destination descriptor names;
    every request the source adapter sends has the descriptor's method
    upper-cased, its url, headers, params and timeout, and carries the
    descriptor's body exactly when the method is POST or PUT. *)
Theorem requests_on_the_wire (src : HttpSourceAdapter) (dst : HttpDestinationAdapter)
    (request destination : ApiRequest) (data : json) :
  Forall (λ c, c = {| call_verb := "POST"; call_url := url destination;
                      call_headers := headers destination;
                      call_params := params destination;
                      call_timeout := timeout destination;
                      call_json := Some data |})
         (sent (deliver dst destination data).1) ∧
  Forall (λ c, call_verb c = str_upper (method request) ∧
               call_url c = url request ∧
               call_headers c = headers request ∧
               call_params c = params request ∧
               call_timeout c = timeout request ∧
               call_json c = (if bool_decide (call_verb c = "POST"
                                              ∨ call_verb c = "PUT")
                              then body request else None))
         (sent (fetch src request).1).
Proof. split; [apply deliver_loop_sent | apply fetch_loop_sent]. Qed.

End HttpFurther.

(** ** The client an adapter holds *)

Section ClientFurther.
Import HttpClient.

(** X12: an adapter constructed with a client of the caller's never
    replaces it, never closes it and never makes another: through any
    sequence of calls and [close()]s the adapter and all clients are as
    at the start, and [_get_client] hands that client out. *)
Theorem injected_client_is_left_alone (c : nat) (timeout : spec_float)
    (us : list use) (w : clients) :
  uses us (init (Some c) timeout) w = (init (Some c) timeout, w) ∧
  _get_client (init (Some c) timeout) w = (init (Some c) timeout, w, c).
Proof.
  split; [| done]. induction us as [| [|] us IH]; [done | exact IH | exact IH].
Qed.

Lemma do_use_owner_state (timeout : spec_float) (w0 : clients) (u : use)
    (self : adapter) (w : clients) :
  owner_state timeout w0 self w →
  owner_state timeout w0 (do_use u self w).1 (do_use u self w).2.
Proof.
  intros (Howns & Htimeout & made & -> & Hsettings & Hheld).
  destruct self as [held t owns]. cbn in *. subst owns t.
  destruct u, held as [c |]; cbn.
  - repeat split; try done. by exists made.
  - repeat split; try done. exists (made ++ [mkClient 100 20 timeout true false]).
    split; [by rewrite app_assoc |]. split.
    + apply Forall_app. split; [done |]. by repeat constructor.
    + exists made, (mkClient 100 20 timeout true false).
      by rewrite length_app.
  - destruct Hheld as (older & cl & -> & -> & Hopen & Hclosed).
    repeat split; try done. exists (older ++ [aclose cl]). split.
    { rewrite alter_app_r. f_equal.
      replace (length older) with (length older + 0)%nat by lia.
      by rewrite alter_app_r. }
    rewrite !Forall_app, !Forall_singleton in Hsettings.
    destruct Hsettings as [Holder Hcl]. split.
    + rewrite Forall_app, Forall_singleton. by split.
    + cbn. rewrite Forall_app, Forall_singleton. by split.
  - repeat split; try done. by exists made.
Qed.

Lemma uses_owner_state (timeout : spec_float) (w0 : clients) (us : list use)
    (self : adapter) (w : clients) :
  owner_state timeout w0 self w →
  owner_state timeout w0 (uses us self w).1 (uses us self w).2.
Proof.
  revert self w. induction us as [| u us IH]; intros self w Hstate; [done |].
  cbn [uses]. pose proof (do_use_owner_state timeout w0 u self w Hstate) as Hstep.
  destruct (do_use u self w) as [self' w']. by apply IH.
Qed.

(** X13: an adapter constructed without a client touches no client it
    did not make and leaks none: after any sequence of calls and
    [close()]s, the clients that existed before are as they were, every
    client the adapter made has 100 connections at most, 20 kept alive,
    the adapter's timeout and follows redirects, the one it holds (the
    last made) is open, and every other one it made has been closed. *)
Theorem owned_clients_do_not_leak (timeout : spec_float) (us : list use)
    (w : clients) :
  let result := uses us (init None timeout) w in
  ∃ made,
    result.2 = w ++ made ∧
    Forall (λ cl, max_connections cl = 100 ∧ max_keepalive_connections cl = 20 ∧
                  client_timeout cl = timeout ∧ follow_redirects cl = true) made ∧
    match _client result.1 with
    | None => Forall (λ cl, is_closed cl = true) made
    | Some c =>
        ∃ older cl, made = older ++ [cl] ∧ c = (length w + length older)%nat ∧
                    is_closed cl = false ∧ Forall (λ cl, is_closed cl = true) older
    end.
Proof.
  intros result.
  assert (owner_state timeout w result.1 result.2) as (_ & _ & Hstate);
    [| exact Hstate].
  apply uses_owner_state.
  split; [done |]. split; [done |]. exists [].
  split; [by rewrite app_nil_r |]. split; constructor.
Qed.

End ClientFurther.

(** ** The rule engine: errors, paths, the registry, the operations *)

Section EngineFurther.
Import Engine Notions.

Context `{PyRuntime}.

Lemma apply_rules_raises (self : TransformationEngine) (source_data target : val)
    (rules : list rule) (h h' : heap) (e : exn) :
  apply_rules self source_data target rules h = (h', Raised e) →
  exn_class e = TransformationError.
Proof.
  revert h. induction rules as [| r rules IH]; intros h; [done |].
  cbn [apply_rules].
  destruct (apply_rule self source_data target r h) as [h1 [[u | e1] | b]] eqn:Hr.
  - apply IH.
  - intros [= <- <-]. by eapply apply_rule_raises.
  - done.
Qed.

Lemma setitem_ends (target : val) (key : string) (v : val) (h : heap) :
  ∃ o, (setitem target key v h).2 = Normal o.
Proof.
  unfold setitem. destruct target as [| | | | | l]; try by eexists.
  destruct (h !! l) as [[items | elems] |]; by eexists.
Qed.

Lemma def_transform_ends (body : heap → val → kwargs → outcome val)
    (value : val) (params : kwargs) (h : heap) :
  ∃ o, (def_transform body value params h).2 = Normal o.
Proof. unfold def_transform. case_decide; by eexists. Qed.

(** The built-in operations return or raise an [Exception]. *)
Lemma builtin_ends (name : string) (f : transformation) (value : val)
    (params : kwargs) (h : heap) :
  builtin_transformations !! name = Some f → ∃ o, (f value params h).2 = Normal o.
Proof.
  unfold builtin_transformations. intros Hf.
  repeat (apply lookup_insert_Some in Hf as [[_ <-] | [_ Hf]];
          [apply def_transform_ends |]).
  by rewrite lookup_empty in Hf.
Qed.

(** What leaves a rule uncaught has left the callable of the rule. *)
Lemma apply_rule_escaped (self : TransformationEngine) (source_data target : val)
    (r : rule) (h h' : heap) (b : base_exception) :
  apply_rule self source_data target r h = (h', Escaped b) →
  ∃ (f : transformation) value,
    _transformation_registry self !! default "direct" (rule_transform r) = Some f ∧
    _extract_value h source_data (rule_source_field r) = Returned value ∧
    f value (default [] (rule_params r)) h = (h', Escaped b).
Proof.
  unfold apply_rule.
  destruct (rule_target_field r) as [[| c t] |]; try done.
  destruct (_transformation_registry self !! _) as [f |]; [| done].
  unfold apply_transformation.
  destruct (_extract_value h source_data (rule_source_field r)) as [value | e];
    [| done].
  destruct (f value (default [] (rule_params r)) h) as [h1 [[tv | e] | b']] eqn:Hf.
  - destruct (setitem_ends target (String c t) tv h1) as [o Ho].
    destruct (setitem target (String c t) tv h1) as [h2 c2]. cbn [snd] in Ho.
    subst c2. by destruct o.
  - done.
  - intros [= <- <-]. by exists f, value.
Qed.

Lemma apply_rules_escaped (self : TransformationEngine) (source_data target : val)
    (rules : list rule) (h h' : heap) (b : base_exception) :
  apply_rules self source_data target rules h = (h', Escaped b) →
  ∃ pre r post h1,
    rules = pre ++ r :: post ∧
    apply_rules self source_data target pre h = (h1, Returned ()) ∧
    apply_rule self source_data target r h1 = (h', Escaped b).
Proof.
  revert h. induction rules as [| r rules IH]; intros h; [done |].
  cbn [apply_rules].
  destruct (apply_rule self source_data target r h) as [h1 [[[] | e1] | b']] eqn:Hr.
  - intros (pre & r' & post & h2 & -> & Hpre & Hstep)%IH.
    exists (r :: pre), r', post, h2. split; [done |]. split; [| done].
    cbn [apply_rules]. by rewrite Hr.
  - done.
  - intros [= <- <-]. by exists [], r, rules, h.
Qed.

(** X14: whatever the engine, the document and the rules, the only
    [Exception] that [transform] raises is a TransformationError whose
    message is "Transformation failed: " followed by the message of its
    cause, and the cause is the TransformationError of the rule that
    failed.  An exception that does not derive from [Exception] comes out
    of [transform] only as the callable of a rule raised it, after the
    rules before it went through: neither handler wraps it.  With the
    built-in operations there is none. *)
Theorem transform_raises_only_TransformationError (self : TransformationEngine)
    (source_data : val) (rules : list rule) (h : heap) :
  (∀ h' e,
     transform self source_data rules h = (h', Raised e) →
     exn_class e = TransformationError ∧
     ∃ cause, exn_cause e = Some cause ∧
              exn_class cause = TransformationError ∧
              exn_str e = "Transformation failed: " +:+ exn_str cause) ∧
  (∀ h' b,
     transform self source_data rules h = (h', Escaped b) →
     ∃ pre r post h1 (f : transformation) value,
       rules = pre ++ r :: post ∧
       apply_rules self source_data (VRef (length h)) pre (h ++ [ODict []])
       = (h1, Returned ()) ∧
       _transformation_registry self !! default "direct" (rule_transform r) = Some f ∧
       _extract_value h1 source_data (rule_source_field r) = Returned value ∧
       f value (default [] (rule_params r)) h1 = (h', Escaped b)) ∧
  (uses_builtins self rules →
   ∀ h' b, transform self source_data rules h ≠ (h', Escaped b)).
Proof.
  assert (∀ h' b,
            transform self source_data rules h = (h', Escaped b) →
            ∃ pre r post h1 (f : transformation) value,
              rules = pre ++ r :: post ∧
              apply_rules self source_data (VRef (length h)) pre (h ++ [ODict []])
              = (h1, Returned ()) ∧
              _transformation_registry self !! default "direct" (rule_transform r)
              = Some f ∧
              _extract_value h1 source_data (rule_source_field r) = Returned value ∧
              f value (default [] (rule_params r)) h1 = (h', Escaped b)) as Hescaped.
  { intros h' b. unfold transform, alloc.
    destruct (apply_rules _ _ _ _ _) as [h1 [[u | cause] | b']] eqn:Hrules;
      [done | done |].
    intros [= <- <-].
    apply apply_rules_escaped in Hrules as (pre & r & post & h2 & -> & Hpre & Hstep).
    apply apply_rule_escaped in Hstep as (f & value & Hf & Hvalue & Hcall).
    by exists pre, r, post, h2, f, value. }
  split; [| split; [exact Hescaped |]].
  - intros h' e. unfold transform, alloc.
    destruct (apply_rules _ _ _ _ _) as [h1 [[u | cause] | b]] eqn:Hrules;
      [done | | done].
    intros [= <- <-]. split; [done |]. exists cause.
    split; [done |]. split; [by eapply apply_rules_raises | done].
  - intros Huses h' b Hrun.
    destruct (Hescaped h' b Hrun)
      as (pre & r & post & h1 & f & value & -> & _ & Hf & _ & Hcall).
    assert (builtin_transformations !! default "direct" (rule_transform r) = Some f)
      as Hb.
    { rewrite <- Hf. symmetry. apply Huses. apply elem_of_app. right. by left. }
    destruct (builtin_ends _ f value (default [] (rule_params r)) h1 Hb) as [o Ho].
    by rewrite Hcall in Ho.
Qed.

Lemma extract_keys_path (h : heap) (keys : list string) (d v : val) :
  path_to h d keys v → extract_keys h keys d = Returned v.
Proof.
  induction 1 as [v | d items k v keys w Hd Hk Hpath IH]; [done |].
  cbn [extract_keys]. rewrite bool_decide_eq_true_2 by (by rewrite Hd).
  unfold method_get. by rewrite Hd, Hk.
Qed.

Lemma extract_keys_found (h : heap) (keys : list string) (d v : val) :
  extract_keys h keys d = Returned v → v ≠ VNone → path_to h d keys v.
Proof.
  revert d. induction keys as [| key keys IH]; intros d; cbn [extract_keys].
  - intros [= ->] _. constructor.
  - case_bool_decide as Hd; [| by intros [= <-]].
    destruct Hd as [items Hitems]. unfold method_get. rewrite Hitems.
    destruct (dict_get key items) as [x |] eqn:Hkey; cbn.
    + intros Hx Hv. eapply path_step; [done | done | by apply IH].
    + rewrite extract_keys_None. by intros [= <-].
Qed.

(** X15: for a path that is not empty, resolving it gives the value
    that lies at the end of the path whenever taking its segments one
    after the other through nested dicts leads to a value; and a result
    other than None is always such a value.  (A key that holds None and a
    key that is missing give the same result.) *)
Theorem extract_value_follows_path (h : heap) (data v : val) (field_path : string) :
  field_path ≠ "" →
  (path_to h data (split "." field_path) v →
   _extract_value h data (Some field_path) = Returned v) ∧
  (_extract_value h data (Some field_path) = Returned v → v ≠ VNone →
   path_to h data (split "." field_path) v).
Proof.
  intros Hne. destruct field_path as [| c s]; [done |]. cbn [_extract_value].
  split; [apply extract_keys_path | apply extract_keys_found].
Qed.

(** *** The registry *)

Lemma apply_rule_registry (self self' : TransformationEngine) (source_data target : val)
    (r : rule) (h : heap) :
  _transformation_registry self !! default "direct" (rule_transform r)
  = _transformation_registry self' !! default "direct" (rule_transform r) →
  apply_rule self source_data target r h = apply_rule self' source_data target r h.
Proof. intros Hreg. unfold apply_rule. by rewrite Hreg. Qed.

Lemma apply_rules_registry (self self' : TransformationEngine) (source_data target : val)
    (rules : list rule) (h : heap) :
  (∀ r, r ∈ rules →
     _transformation_registry self !! default "direct" (rule_transform r)
     = _transformation_registry self' !! default "direct" (rule_transform r)) →
  apply_rules self source_data target rules h
  = apply_rules self' source_data target rules h.
Proof.
  revert h. induction rules as [| r rules IH]; intros h Hreg; [done |].
  cbn [apply_rules].
  rewrite (apply_rule_registry self self') by (apply Hreg; by left).
  destruct (apply_rule self' source_data target r h) as [h1 [[u | e] | b]];
    [| done | done].
  apply IH. intros r' Hr'. apply Hreg. by right.
Qed.

(** X16: registering an operation under a name changes nothing for
    rule lists that do not use that name: [transform] gives the same
    outcome and the same store as before the registration. *)
Theorem register_transformation_scope (self : TransformationEngine) (name : string)
    (func : transformation) (source_data : val) (rules : list rule) (h : heap) :
  (∀ r, r ∈ rules → default "direct" (rule_transform r) ≠ name) →
  transform (register_transformation self name func) source_data rules h
  = transform self source_data rules h.
Proof.
  intros Hunused. unfold transform, alloc.
  rewrite (apply_rules_registry (register_transformation self name func) self); [done |].
  intros r Hr. cbn. apply lookup_insert_ne. intros ->. by apply (Hunused r).
Qed.

(** One rule whose operation returns without touching the store. *)
Lemma transform_one_rule (self : TransformationEngine) (source_data : val) (r : rule)
    (h : heap) (c : ascii) (t : string) (f : transformation) (value v : val) :
  let h0 := h ++ [ODict []] in
  rule_target_field r = Some (String c t) →
  _transformation_registry self !! default "direct" (rule_transform r) = Some f →
  _extract_value h0 source_data (rule_source_field r) = Returned value →
  f value (default [] (rule_params r)) h0 = (h0, Returned v) →
  transform self source_data [r] h
  = (h ++ [ODict [(String c t, v)]], Returned (VRef (length h))).
Proof.
  intros h0 Htarget Hf Hvalue Hcall. unfold transform, alloc. cbn [apply_rules].
  unfold apply_rule. rewrite Htarget, Hf. unfold apply_transformation.
  fold h0. rewrite Hvalue, Hcall. unfold setitem, h0.
  rewrite lookup_app_r, Nat.sub_diag by done. cbn.
  replace (length h) with (length h + 0)%nat at 1 by lia.
  by rewrite insert_app_r.
Qed.

(** X17: a registered operation takes the place of a built-in one of
    the same name: after registering [func] under any name, "direct"
    included, a rule with that name (for "direct": also a rule that names
    no operation) gets the value [func] returns, not the built-in's. *)
Theorem registered_operation_is_used (self : TransformationEngine) (name : string)
    (func : transformation) (source_data : val) (r : rule) (h : heap)
    (c : ascii) (t : string) (value v : val) :
  let h0 := h ++ [ODict []] in
  default "direct" (rule_transform r) = name →
  rule_target_field r = Some (String c t) →
  _extract_value h0 source_data (rule_source_field r) = Returned value →
  func value (default [] (rule_params r)) h0 = (h0, Returned v) →
  transform (register_transformation self name func) source_data [r] h
  = (h ++ [ODict [(String c t, v)]], Returned (VRef (length h))).
Proof.
  intros h0 Hname Htarget Hvalue Hcall.
  apply (transform_one_rule _ source_data r h c t func value v); try done.
  rewrite Hname. cbn. apply lookup_insert_eq.
Qed.

(** X18: the identity operation copies nothing: the output document
    holds under the target key the very value that the source path
    resolves to, for a dict or a list a reference to the same object; with
    no source path, the source document itself. *)
Theorem direct_mapping_shares_the_value (source_data : val) (r : rule) (h : heap)
    (c : ascii) (t : string) (value : val) :
  let h0 := h ++ [ODict []] in
  default "direct" (rule_transform r) = "direct" →
  rule_target_field r = Some (String c t) →
  dict_get "value" (default [] (rule_params r)) = None →
  _extract_value h0 source_data (rule_source_field r) = Returned value →
  transform new_engine source_data [r] h
  = (h ++ [ODict [(String c t, value)]], Returned (VRef (length h))) ∧
  (rule_source_field r = None → value = source_data).
Proof.
  intros h0 Hname Htarget Hparams Hvalue. split.
  - apply (transform_one_rule _ source_data r h c t direct_mapping value value);
      try done.
    + by rewrite Hname.
    + unfold direct_mapping. by rewrite def_transform_call.
  - intros Hnone. rewrite Hnone in Hvalue. by injection Hvalue.
Qed.

(** *** The operations *)

Lemma plain_operation_returns (name : string) (value : val) (params : kwargs)
    (h : heap) :
  name ∈ ["direct"; "uppercase"; "default_value"] →
  dict_get "value" params = None →
  ∃ (f : transformation) v, builtin_transformations !! name = Some f ∧
         f value params h = (h, Returned v).
Proof.
  intros Hname Hparams.
  repeat (apply elem_of_cons in Hname as [-> | Hname]);
    [| | | by apply elem_of_nil in Hname].
  - exists direct_mapping, value. split; [done |].
    unfold direct_mapping. by rewrite def_transform_call.
  - exists uppercase,
      (match value with
       | VNone => VStr ""
       | _ => VStr (str_upper (py_str h value))
       end).
    split; [done |].
    unfold uppercase. rewrite def_transform_call by done. by destruct value.
  - exists default_value,
      (match value with
       | VNone | VStr "" => keyword params "default" VNone
       | _ => value
       end).
    split; [done |].
    unfold default_value. rewrite def_transform_call by done.
    by destruct value as [| | | | [| ? ?] |].
Qed.

Lemma apply_plain_rule (source_data : val) (l : loc) (r : rule) (h : heap)
    (items : list (string * val)) :
  plain_rule r = true →
  h !! l = Some (ODict items) →
  ∃ h' items', apply_rule new_engine source_data (VRef l) r h = (h', Returned ()) ∧
               h' !! l = Some (ODict items') ∧ length h' = length h.
Proof.
  unfold plain_rule, apply_rule. intros Hplain Hl.
  destruct (rule_target_field r) as [[| c t] |]; try done.
  apply andb_prop in Hplain as [Hname%bool_decide_eq_true Hparams%bool_decide_eq_true].
  assert (∃ value, _extract_value h source_data (rule_source_field r) = Returned value)
    as [value Hvalue].
  { destruct (rule_source_field r) as [[| c' s'] |]; cbn [_extract_value];
      [by eexists | apply extract_keys_returns | by eexists]. }
  destruct (plain_operation_returns _ value _ h Hname Hparams) as (f & v & Hf & Hcall).
  cbn [_transformation_registry new_engine]. rewrite Hf.
  unfold apply_transformation. rewrite Hvalue, Hcall. unfold setitem. rewrite Hl.
  eexists _, _. split; [done |]. split.
  - apply list_lookup_insert_eq. by eapply lookup_lt_Some.
  - apply length_insert.
Qed.

(** X19: a rule list cannot fail when every rule has a target, names
    one of identity, uppercase and default-value (or no operation), and
    passes no param called "value": [transform] returns
    the new target document, whatever the source document is, and has
    allocated nothing but that document. *)
Theorem plain_rules_never_fail (source_data : val) (rules : list rule) (h : heap) :
  forallb plain_rule rules = true →
  ∃ h', transform new_engine source_data rules h = (h', Returned (VRef (length h))) ∧
        length h' = S (length h).
Proof.
  intros Hplain. unfold transform, alloc.
  assert (∀ h1 items, h1 !! length h = Some (ODict items) →
            ∃ h', apply_rules new_engine source_data (VRef (length h)) rules h1
                  = (h', Returned ()) ∧ length h' = length h1) as Hrun.
  { induction rules as [| r rules IH]; intros h1 items Hl; [by eexists |].
    cbn [forallb] in Hplain. apply andb_prop in Hplain as [Hr Hrules].
    destruct (apply_plain_rule source_data (length h) r h1 items Hr Hl)
      as (h2 & items2 & Hstep & Hl2 & Hlen).
    cbn [apply_rules]. rewrite Hstep.
    destruct (IH Hrules h2 items2 Hl2) as (h' & Hrest & Hlen').
    exists h'. split; [done | congruence]. }
  destruct (Hrun (h ++ [ODict []]) []) as (h' & Hrules & Hlen).
  { by rewrite lookup_app_r, Nat.sub_diag by done. }
  rewrite Hrules. exists h'. split; [done |].
  rewrite Hlen, length_app. cbn. lia.
Qed.

Lemma default_value_call (value : val) (params : kwargs) (h : heap) :
  dict_get "value" params = None →
  default_value value params h
  = (h, Returned (match value with
                  | VNone | VStr "" => keyword params "default" VNone
                  | _ => value
                  end)).
Proof.
  intros Hparams. unfold default_value. rewrite def_transform_call by done.
  by destruct value as [| | | | [| ? ?] |].
Qed.

(** X20: default-value gives the value itself unless it is None or the
    empty string, and the default then; so its result is None or empty
    only if the default is; and applying it again to its result changes
    nothing. *)
Theorem default_value_fills (value : val) (params : kwargs) (h : heap) :
  dict_get "value" params = None →
  let default := keyword params "default" VNone in
  ∃ r, default_value value params h = (h, Returned r) ∧
       (value ≠ VNone → value ≠ VStr "" → r = value) ∧
       (value = VNone ∨ value = VStr "" → r = default) ∧
       (default ≠ VNone → default ≠ VStr "" → r ≠ VNone ∧ r ≠ VStr "") ∧
       default_value r params h = (h, Returned r).
Proof.
  intros Hparams default. rewrite default_value_call by done. fold default.
  eexists. split; [reflexivity |].
  rewrite default_value_call by done. fold default.
  destruct value as [| b | z | f | [| c s] | l];
    (split; [done || by intros _ |]);
    (split; [by intros [? | ?] |]);
    (split; [by intros ? ? |]);
    try done;
    by destruct default as [| | | | [| ? ?] |].
Qed.

Lemma concatenate_values_names (h : heap) (l : loc) (items : list (string * val))
    (names : list string) :
  h !! l = Some (ODict items) →
  concatenate_values h (VRef l) (VStr <$> names)
  = Returned ((λ n, py_str h (default (VStr "") (dict_get n items))) <$> names).
Proof.
  intros Hl. induction names as [| n names IH]; [done |].
  rewrite !fmap_cons. cbn [concatenate_values]. unfold method_get at 1. cbn.
  by rewrite Hl, IH.
Qed.

(** X21: concatenate on a dict, with a list of field names that is
    not empty and a string separator (or none given: a space), never
    raises: it joins with the separator the [str()] of each named field
    of the dict in the order of the list, a field that the dict lacks
    counting as the empty string. *)
Theorem concatenate_joins_fields (l lf : loc) (items : list (string * val))
    (names : list string) (sep : string) (params : kwargs) (h : heap) :
  dict_get "value" params = None →
  h !! l = Some (ODict items) →
  dict_get "fields" params = Some (VRef lf) →
  h !! lf = Some (OList (VStr <$> names)) →
  names ≠ [] →
  keyword params "separator" (VStr " ") = VStr sep →
  concatenate (VRef l) params h
  = (h, Returned (VStr (join sep ((λ n, py_str h (default (VStr "")
                                                     (dict_get n items))) <$> names)))).
Proof.
  intros Hparams Hl Hfields Hlf Hnames Hsep. unfold concatenate.
  rewrite def_transform_call by done. cbv zeta. rewrite Hsep.
  unfold keyword. rewrite Hfields. cbn [default from_option id].
  assert (truthy h (VRef lf) = true) as ->.
  { unfold truthy. rewrite Hlf. by destruct names. }
  rewrite bool_decide_eq_true_2 by (unfold as_dict; by rewrite Hl). cbn [andb].
  unfold iterate. rewrite Hlf.
  by rewrite (concatenate_values_names h l items names Hl).
Qed.

(** *** Rules that write the same key *)

Lemma builtin_call_store (self : TransformationEngine) (r : rule) (f : transformation)
    (value : val) (h h1 : heap) (o : completion val) :
  _transformation_registry self !! default "direct" (rule_transform r)
  = builtin_transformations !! default "direct" (rule_transform r) →
  _transformation_registry self !! default "direct" (rule_transform r) = Some f →
  f value (default [] (rule_params r)) h = (h1, o) → h1 = h.
Proof.
  intros Hb Hf Hcall.
  pose proof (builtin_store _ f value (default [] (rule_params r)) h
                (eq_trans (eq_sym Hb) Hf)) as Hs.
  by rewrite Hcall in Hs.
Qed.

Lemma apply_rules_other_key (self : TransformationEngine) (source_data : val) (l : loc)
    (rules : list rule) (h h' : heap) (u : unit) (items : list (string * val))
    (t : string) :
  uses_builtins self rules →
  Forall (λ r, rule_target_field r ≠ Some t) rules →
  apply_rules self source_data (VRef l) rules h = (h', Returned u) →
  h !! l = Some (ODict items) →
  ∃ items', h' !! l = Some (ODict items') ∧ dict_get t items' = dict_get t items.
Proof.
  revert h items. induction rules as [| r rules IH]; intros h items Huses Hother Hrun Hl.
  - cbn in Hrun. injection Hrun as <- _. by exists items.
  - cbn [apply_rules] in Hrun. apply Forall_cons in Hother as [Hr Hrules].
    destruct (apply_rule self source_data (VRef l) r h) as [h1 [[[] | e] | b]] eqn:Hstep;
      [| done | done].
    apply apply_rule_returns in Hstep
      as (target & f & value & h0 & tv & items0 & Ht & Hf & _ & Hcall & Hl0 & Hl1).
    assert (h0 = h) as ->
      by (eapply builtin_call_store; [apply Huses; by left | done | done]).
    assert (items0 = items) as -> by congruence.
    destruct (IH h1 _ ltac:(intros r' Hr'; apply Huses; by right) Hrules Hrun Hl1)
      as (items' & Hl' & Hget).
    exists items'. split; [done |]. rewrite Hget. apply dict_get_set_ne.
    intros ->. by rewrite Ht in Hr.
Qed.

(** X22: the last rule that writes a key wins: with built-in
    operations, when [transform] returns, the value under a rule's target
    key is the one that rule's operation returned when the rule ran, in
    the store that the rules before it left, provided no later rule has
    the same target; rules after it with other targets leave it alone,
    and what earlier rules wrote under that key is overwritten. *)
Theorem last_write_to_a_key_stays (self : TransformationEngine) (source_data : val)
    (pre post : list rule) (r : rule) (t : string) (h h' : heap) (target_doc : val) :
  uses_builtins self (pre ++ r :: post) →
  rule_target_field r = Some t →
  Forall (λ r', rule_target_field r' ≠ Some t) post →
  transform self source_data (pre ++ r :: post) h = (h', Returned target_doc) →
  ∃ items (f : transformation) value h1 v,
    h' !! length h = Some (ODict items) ∧
    apply_rules self source_data (VRef (length h)) pre (h ++ [ODict []])
    = (h1, Returned ()) ∧
    _transformation_registry self !! default "direct" (rule_transform r) = Some f ∧
    _extract_value h1 source_data (rule_source_field r) = Returned value ∧
    f value (default [] (rule_params r)) h1 = (h1, Returned v) ∧
    dict_get t items = Some v.
Proof.
  intros Huses Ht Hother. unfold transform, alloc.
  destruct (apply_rules _ _ _ _ _) as [h3 [[[] | e] | b]] eqn:Hrun; [| done | done].
  intros [= <- _]. rewrite apply_rules_app in Hrun.
  destruct (apply_rules _ _ _ pre _) as [h1 [[[] | e] | b]] eqn:Hpre;
    [| done | done].
  cbn [apply_rules] in Hrun.
  destruct (apply_rule _ _ _ r h1) as [h2 [[[] | e] | b]] eqn:Hstep; [| done | done].
  apply apply_rule_returns in Hstep
    as (target & f & value & h0 & v & items0 & Ht' & Hf & Hvalue & Hcall & _ & Hl2).
  assert (target = t) as -> by congruence.
  assert (h0 = h1) as ->.
  { eapply builtin_call_store; [apply Huses | done | done].
    apply elem_of_app. right. by left. }
  destruct (apply_rules_other_key self source_data (length h) post h2 h3 ()
              (dict_set t v items0) t)
    as (items & Hl3 & Hget); try done.
  { intros r' Hr'. apply Huses. apply elem_of_app. right. by right. }
  exists items, f, value, h1, v. repeat (split; [done |]).
  rewrite Hget. apply dict_get_set_eq.
Qed.

End EngineFurther.

(** ** The further properties at work on the sample data *)

Section FurtherWitnesses.
Import Job UseCases Http Engine Notions Examples MoreExamples.

#[local] Existing Instance ascii_runtime.

(** A job marked failed stays terminal whatever is called next. *)
Lemma status_never_goes_back_witness :
  let job := (mark_as_failed "boom" 3 (job_in FETCHING)).1 in
  let later := run [CallFetching; CallCompleted 5; CallDelivering] job in
  status later = COMPLETED ∨ status later = FAILED.
Proof.
  intros job later.
  apply (proj2 (status_never_goes_back [CallFetching; CallCompleted 5; CallDelivering]
                  job)).
  by right.
Defined.

(** It keeps its error message when it is marked completed afterwards. *)
Lemma records_are_never_erased_witness :
  let job := (mark_as_failed "boom" 3 (job_in FETCHING)).1 in
  is_Some (error_message (run [CallCompleted 5] job)).
Proof.
  intros job. apply (proj2 (records_are_never_erased [CallCompleted 5] job)).
  by eexists.
Defined.

(** A failed job is refused by the three use cases. *)
Lemma use_cases_refuse_out_of_order_witness :
  let job := (mark_as_failed "boom" 3 (job_in FETCHING)).1 in
  (∃ msg, fetch_execute answering_fetch 9 job get_users ()
          = ((), job, Raised (Exn ValueError msg None))) ∧
  (∃ msg, transform_execute answering_transform 9 job JNull [] ()
          = ((), job, Raised (Exn ValueError msg None))) ∧
  (∃ msg, deliver_execute accepting_deliver 9 job JNull post_customers ()
          = ((), job, Raised (Exn ValueError msg None))).
Proof.
  intros job.
  destruct (use_cases_refuse_out_of_order answering_fetch answering_transform
              accepting_deliver 9 job ()) as (Hf & Ht & Hd).
  split; [| split].
  - apply Hf. discriminate.
  - apply Ht. discriminate.
  - apply Hd. discriminate.
Defined.

(** The three stages on a new job, with ports that answer. *)
Lemma pipeline_completes_witness :
  ∃ j1 j2 j3,
    fetch_execute answering_fetch 9 (job_in PENDING) get_users ()
    = ((), j1, Returned users_response) ∧
    transform_execute answering_transform 9 j1 (data users_response) [] ()
    = ((), j2, Returned (JObj [("customers", JList [])])) ∧
    deliver_execute accepting_deliver 9 j2 (JObj [("customers", JList [])])
      post_customers () = ((), j3, Returned ()) ∧
    status j3 = COMPLETED ∧ completed_at j3 = Some 9 ∧ error_message j3 = None.
Proof.
  eexists _, _, _. split; [reflexivity |]. split; [reflexivity |].
  split; [reflexivity |].
  destruct (pipeline_completes answering_fetch answering_transform accepting_deliver 9
              (job_in PENDING) _ _ _ () () () () get_users post_customers
              users_response (data users_response) (JObj [("customers", JList [])])
              (JObj [("customers", JList [])]) [] eq_refl eq_refl eq_refl)
    as (_ & Hstatus & Hcompleted & Hmessage & _).
  split; [exact Hstatus |]. split; [exact Hcompleted | exact Hmessage].
Defined.

Lemma use_cases_keep_invariant_witness :
  job_invariant (fetch_execute failing_fetch 9 (job_in PENDING) get_users ()).1.2 ∧
  job_invariant
    (deliver_execute accepting_deliver 9 (job_in TRANSFORMING) JNull post_customers
       ()).1.2.
Proof.
  assert (∀ s, s ≠ COMPLETED → s ≠ FAILED → job_invariant (job_in s)) as Hinv.
  { intros s Hc Hf. unfold job_invariant, job_in. cbn.
    split; [| split]; [| done |].
    - split; [by intros [? ?] | by intros [? | ?]].
    - by intros [? ?]. }
  split.
  - apply (use_cases_keep_invariant failing_fetch failing_transform failing_deliver 9
             (job_in PENDING) () (Hinv PENDING ltac:(discriminate) ltac:(discriminate))).
  - apply (use_cases_keep_invariant failing_fetch failing_transform accepting_deliver 9
             (job_in TRANSFORMING) ()
             (Hinv TRANSFORMING ltac:(discriminate) ltac:(discriminate))).
Defined.

(** Two timeouts and an accepted delivery, out of three attempts. *)
Lemma deliver_retry_policy_witness :
  sleeps (deliver flaky_network (mkDestination 3 60) post_customers JNull).1 = [1; 2] ∧
  (deliver flaky_network (mkDestination 3 60) post_customers JNull).2 = Returned () ∧
  ∃ msg, (deliver dead_network (mkDestination 3 60) post_customers JNull).2
         = Raised (Exn DeliveryError msg
                     (Some (Exn TimeoutException "timed out" None))).
Proof.
  destruct (deliver_retry_policy flaky_network (mkDestination 3 60) post_customers
              JNull 3 eq_refl ltac:(lia)) as (Hs & Hok & _).
  { intros i Hi. destruct i as [| [| i]]; [reflexivity | reflexivity | lia]. }
  destruct (deliver_retry_policy dead_network (mkDestination 3 60) post_customers
              JNull 3 eq_refl ltac:(lia)) as (_ & _ & Herr).
  { intros i Hi. destruct i as [| [| i]]; [reflexivity | reflexivity | lia]. }
  split; [exact Hs |]. split; [by apply Hok | by apply Herr].
Defined.

(** A 503 and then a 200, with five attempts allowed. *)
Lemma fetch_stops_at_first_success_witness :
  let result := fetch busy_once stopwatch (mkSource 5 30) get_users in
  (∃ response, result.2 = Returned (Some response) ∧ status_code response = 200) ∧
  sleeps result.1 = [1] ∧ requests result.1 = [0; 1]%nat.
Proof.
  intros result.
  destruct (fetch_stops_at_first_success busy_once stopwatch (mkSource 5 30) get_users
              (mkApiResponse 200 (JObj [("users", JList [])])
                 [("content-type", "application/json")] (S754_zero false))
              5 1 eq_refl ltac:(lia)) as (Hr & Hs & _); [| reflexivity |].
  { intros i Hi. destruct i as [| i]; [reflexivity | lia]. }
  split; [| split; [exact Hs | reflexivity]].
  eexists. split; [exact Hr | reflexivity].
Defined.

(** PATCH is not sent, and is retried all the same. *)
Lemma unsupported_method_is_retried_witness :
  let result := fetch flaky_network stopwatch (mkSource 3 30) patch_users in
  requests result.1 = [] ∧ sleeps result.1 = [1; 2] ∧
  result.2
  = Raised (Exn SourceFetchError "Unexpected error: Unsupported HTTP method: PATCH"
              (Some (Exn ValueError "Unsupported HTTP method: PATCH" None))).
Proof.
  exact (unsupported_method_is_retried (H := ascii_runtime) flaky_network stopwatch
           (mkSource 3 30)
           patch_users 3 ltac:(vm_compute; discriminate)
           ltac:(vm_compute; discriminate) ltac:(vm_compute; discriminate)
           ltac:(vm_compute; discriminate) eq_refl ltac:(lia)).
Defined.

(** A date that does not parse; and an operation of the caller's that
    exits, after a rule that went through. *)
Lemma transform_raises_only_TransformationError_witness :
  let result := transform new_engine ann.2 [rule_name; rule_date] ann.1 in
  let rules := [rule_name; rule_quit; rule_date] in
  let stopped := transform (register_transformation new_engine "quit" quit) ann.2
                   rules ann.1 in
  (∃ e cause, result.2 = Raised e ∧ exn_class e = TransformationError ∧
              exn_cause e = Some cause ∧ exn_class cause = TransformationError) ∧
  stopped.2 = Escaped SystemExit ∧
  (∃ pre r post h1 (f : transformation) value,
     rules = pre ++ r :: post ∧
     f value (default [] (rule_params r)) h1 = (stopped.1, Escaped SystemExit)) ∧
  ∀ h' b, result ≠ (h', Escaped b).
Proof.
  intros result rules stopped.
  assert (∃ h' e, result = (h', Raised e)) as (h' & e & Hresult)
    by (eexists _, _; reflexivity).
  destruct (transform_raises_only_TransformationError new_engine ann.2
              [rule_name; rule_date] ann.1) as (Hraised & _ & Hbuiltin).
  destruct (Hraised h' e Hresult) as (Hclass & cause & Hcause & Hcc & _).
  split; [| split; [reflexivity | split]].
  - exists e, cause. split; [by rewrite Hresult |]. split; [exact Hclass |].
    split; [exact Hcause | exact Hcc].
  - destruct (transform_raises_only_TransformationError
                (register_transformation new_engine "quit" quit) ann.2 rules ann.1)
      as (_ & Hescaped & _).
    destruct (Hescaped stopped.1 SystemExit eq_refl)
      as (pre & r & post & h1 & f & value & Hrules & _ & _ & _ & Hcall).
    by exists pre, r, post, h1, f, value.
  - apply Hbuiltin, new_engine_uses_builtins.
Defined.

(** The path "user.name" in the sample document. *)
Lemma extract_value_follows_path_witness :
  _extract_value ann.1 ann.2 (Some "user.name") = Returned (VStr "ann") ∧
  path_to ann.1 ann.2 ["user"; "name"] (VStr "ann").
Proof.
  destruct (extract_value_follows_path ann.1 ann.2 (VStr "ann") "user.name"
              ltac:(discriminate)) as [Hto Hfrom].
  split.
  - apply Hto. eapply path_step; [reflexivity | reflexivity |].
    eapply path_step; [reflexivity | reflexivity |]. constructor.
  - apply Hfrom; [reflexivity | discriminate].
Defined.

(** Registering "redact" does not change a run that does not name it,
    and takes over "direct" when registered under that name. *)
Lemma register_transformation_scope_witness :
  transform (register_transformation new_engine "redact" redact) ann.2
    [rule_name; rule_tags] ann.1
  = transform new_engine ann.2 [rule_name; rule_tags] ann.1.
Proof.
  apply register_transformation_scope.
  intros r Hr. repeat (apply elem_of_cons in Hr as [-> | Hr]); [| | by inversion Hr];
    discriminate.
Defined.

Lemma registered_operation_is_used_witness :
  ∃ h', transform (register_transformation new_engine "direct" redact) ann.2
          [rule_user] ann.1 = (h', Returned (VRef 2%nat)) ∧
        snapshot 3 h' (VRef 2%nat) = Some (JObj [("customer", JStr "redacted")]).
Proof.
  eexists. split;
    [exact (registered_operation_is_used new_engine "direct" redact ann.2 rule_user
              ann.1 "c" "ustomer" (VRef 0%nat) (VStr "redacted")
              eq_refl eq_refl eq_refl eq_refl)
    | reflexivity].
Defined.

(** The inner dict of the source is the very object the target holds. *)
Lemma direct_mapping_shares_the_value_witness :
  transform new_engine ann.2 [rule_user] ann.1
  = (ann.1 ++ [ODict [("customer", VRef 0%nat)]], Returned (VRef 2%nat)) ∧
  ann.1 !! 1%nat = Some (ODict [("user", VRef 0%nat)]).
Proof.
  split; [| reflexivity].
  exact (proj1 (direct_mapping_shares_the_value ann.2 rule_user ann.1
                  "c" "ustomer" (VRef 0%nat) eq_refl eq_refl eq_refl eq_refl)).
Defined.

Lemma plain_rules_never_fail_witness :
  ∃ h', transform new_engine ann.2 [rule_name; rule_tags; rule_user] ann.1
        = (h', Returned (VRef 2%nat)) ∧ length h' = 3%nat.
Proof.
  exact (plain_rules_never_fail ann.2 [rule_name; rule_tags; rule_user] ann.1 eq_refl).
Defined.

Lemma default_value_fills_witness :
  default_value VNone [("default", VStr "x")] [] = ([], Returned (VStr "x")) ∧
  default_value (VStr "x") [("default", VStr "x")] [] = ([], Returned (VStr "x")).
Proof.
  destruct (default_value_fills VNone [("default", VStr "x")] [] eq_refl)
    as (r & Hr & _ & Hblank & _ & Hagain).
  rewrite (Hblank (or_introl eq_refl)) in Hr, Hagain. by split.
Defined.

Lemma concatenate_joins_fields_witness :
  concatenate john.2 [("fields", first_missing.2); ("separator", VStr "-")]
    first_missing.1
  = (first_missing.1, Returned (VStr "John-")).
Proof.
  exact (concatenate_joins_fields 0 2 [("first", VStr "John"); ("last", VStr "Doe")]
           ["first"; "missing"] "-"
           [("fields", first_missing.2); ("separator", VStr "-")] first_missing.1
           eq_refl eq_refl eq_refl eq_refl ltac:(discriminate) eq_refl).
Defined.

(** Two rules write "name"; the second one's value is the one kept. *)
Lemma last_write_to_a_key_stays_witness :
  ∃ h' items,
    transform new_engine ann.2 [rule_name; rule_name_again; rule_tags] ann.1
    = (h', Returned (VRef 2%nat)) ∧
    h' !! 2%nat = Some (ODict items) ∧ dict_get "name" items = Some (VStr "ann").
Proof.
  destruct (last_write_to_a_key_stays new_engine ann.2 [rule_name] [rule_tags]
              rule_name_again "name" ann.1 _ _ (new_engine_uses_builtins _) eq_refl
              ltac:(repeat constructor; discriminate) eq_refl)
    as (items & f & value & h1 & v & Hitems & Hpre & Hf & Hvalue & Hcall & Hget).
  eexists _, items. split; [reflexivity |]. split; [exact Hitems |].
  vm_compute in Hpre. injection Hpre as <-.
  vm_compute in Hf. injection Hf as <-.
  vm_compute in Hvalue. injection Hvalue as <-.
  vm_compute in Hcall. injection Hcall as <-.
  exact Hget.
Defined.

End FurtherWitnesses.
